(** * Lore retrieval and context packing (foundryvtt-mcp, [src/rag], [src/tools])

    A shallow embedding of the retrieval service ([RAGService]), the lore
    repository ([LoreDatabase]), the [warhammer_context] tool handler and the
    Lexicanum ingestion script, together with the properties their
    specification states about them.

    Conventions of the embedding:
    - a JavaScript string is a [string]; one character stands for one UTF-16
      code unit, so [len] is [.length] and [slice0] is [.slice(0, n)];
    - integral numbers (lengths, budgets, limits, counters) are [Z];
      relevance scores and distances are rationals ([Q]);
    - an [async] method is a computation in the monad [M]: it reads and
      updates the object it is called on, appends to a log every call it
      makes to an external collaborator (the Chroma client and collection,
      the embedding model) and either returns a value or throws;
    - calls to [logger] and [console] are not modelled. *)

From Stdlib Require Import ZArith QArith Qround List String Ascii Bool Lia Sorted.
From Stdlib Require Import DecimalString.
Import ListNotations.

Local Open Scope string_scope.
Local Open Scope Z_scope.

(** ** JavaScript strings *)

Module JsString.

(** The line feed the template literals write as [\n]. *)
Definition nl : string := String (ascii_of_nat 10) EmptyString.

(** [s.length] *)
Definition len (s : string) : Z := Z.of_nat (String.length s).

(** [s.slice(0, e)]: a negative end counts from the end of the string, and
    the end is clamped to the string. *)
Definition slice0 (s : string) (e : Z) : string :=
  let n := len s in
  let e' := if e <? 0 then Z.max (n + e) 0 else Z.min e n in
  String.substring 0 (Z.to_nat e') s.

(** [s.repeat(n)], used to write long inputs down. *)
Fixpoint repeat (s : string) (n : nat) : string :=
  match n with
  | O => ""
  | S k => s ++ repeat s k
  end.

(** [xs.join(sep)] on an array of strings. *)
Definition join (sep : string) (xs : list string) : string :=
  String.concat sep xs.

(** Truthiness of a string: the empty string is falsy. *)
Definition truthy (s : string) : bool :=
  match s with
  | EmptyString => false
  | String _ _ => true
  end.

(** [(v as string) || d] on a possibly missing string. *)
Definition or_default (v : option string) (d : string) : string :=
  match v with
  | Some s => if truthy s then s else d
  | None => d
  end.

End JsString.
Import JsString.

(** ** Results and contexts ([database.ts], [service.ts]) *)

(** [LoreCategory] *)
Inductive LoreCategory :=
| any | character | location | creature | item | event
| organization | deity | spell | general.

(** The string a category is at run time. *)
Definition category_str (c : LoreCategory) : string :=
  match c with
  | any => "any" | character => "character" | location => "location"
  | creature => "creature" | item => "item" | event => "event"
  | organization => "organization" | deity => "deity" | spell => "spell"
  | general => "general"
  end.

(** [LoreResult] *)
Record LoreResult := mkResult {
  text : string;
  title : string;
  type_ : string;
  relevance : Q;
  url : option string
}.

(** [LoreContext] *)
Record LoreContext := mkContext {
  ctx_text : string;
  sourceCount : Z;
  sources : list string
}.

(** ** [RAGService.buildContext] *)

Definition HEADER : string := "## Relevant Warhammer Lore" ++ nl ++ nl.

(** The template [`### ${result.title}\n${result.text}\n\n`]. *)
Definition format_entry (result : LoreResult) : string :=
  "### " ++ title result ++ nl ++ text result ++ nl ++ nl.

(** The template
    [`### ${result.title}\n${result.text.slice(0, available)}...\n\n`]. *)
Definition format_truncated (result : LoreResult) (available : Z) : string :=
  "### " ++ title result ++ nl ++ slice0 (text result) available
         ++ "..." ++ nl ++ nl.

(** The [for (const result of results)] loop, with its three variables
    [contextText], [currentLength] and [sources]; [break] ends the recursion. *)
Fixpoint buildContext_loop (results : list LoreResult) (maxLength : Z)
    (contextText : string) (currentLength : Z) (srcs : list string)
  : string * list string :=
  match results with
  | [] => (contextText, srcs)
  | result :: rest =>
      let entry := format_entry result in
      if currentLength + len entry >? maxLength then
        let available := maxLength - currentLength - 50 in
        if available >? 200 then
          (contextText ++ format_truncated result available,
           (srcs ++ [title result])%list)
        else
          (contextText, srcs)
      else
        buildContext_loop rest maxLength (contextText ++ entry)
          (currentLength + len entry) (srcs ++ [title result])%list
  end.

Definition buildContext (results : list LoreResult) (maxLength : Z)
  : LoreContext :=
  match results with
  | [] => {| ctx_text := ""; sourceCount := 0; sources := [] |}
  | _ :: _ =>
      let '(contextText, srcs) :=
        buildContext_loop results maxLength HEADER (len HEADER) [] in
      {| ctx_text := contextText;
         sourceCount := Z.of_nat (List.length srcs);
         sources := srcs |}
  end.

(** The longest title of a list of results. *)
Definition max_title_len (results : list LoreResult) : Z :=
  fold_right (fun r m => Z.max (len (title r)) m) 0 results.

(** A result for examples: only its title and body matter to the packer. *)
Definition sample (t body : string) : LoreResult :=
  {| text := body; title := t; type_ := "general"; relevance := 1%Q; url := None |}.


(** ** Exceptions, external collaborators and the method monad *)

(** A JavaScript [Error] with its message. *)
Inductive error := Error (message : string).

(** What an awaited call settles to. *)
Inductive outcome (A : Type) :=
| Ok (a : A)
| Throw (e : error).
Arguments Ok {A} a.
Arguments Throw {A} e.

(** [number[]] as produced by the embedding model. *)
Definition embedding := list Q.

(** The metadata Chroma stores with a document ([Record<string, unknown>]
    read back through [title], [type] and [url]). *)
Record Metadata := mkMetadata {
  meta_title : option string;
  meta_type : option string;
  meta_aliases : option string;
  meta_tags : option string;
  meta_url : option string
}.

(** The argument of [collection.query]; [include] is always documents,
    metadatas and distances. [where_type] is the [where: { type }] clause. *)
Record QueryOptions := mkQueryOptions {
  queryEmbeddings : list embedding;
  nResults : Z;
  where_type : option string
}.

(** The answer of [collection.query], reduced to the row of the single query
    embedding: [qr_documents] is [results.documents?.[0]] and so on. *)
Record QueryResponse := mkQueryResponse {
  qr_documents : option (list (option string));
  qr_metadatas : option (list (option Metadata));
  qr_distances : option (list (option Q))
}.

(** The answer of [collection.get]. *)
Record GetResponse := mkGetResponse {
  gr_documents : option (list (option string));
  gr_metadatas : option (list (option Metadata))
}.

(** The argument of [collection.add]. *)
Record AddRequest := mkAddRequest {
  add_ids : list string;
  add_embeddings : list embedding;
  add_documents : list string;
  add_metadatas : list Metadata
}.

(** A Chroma [Collection], as far as the repository uses it. [coll_get t] is
    [get({ where: { title: t }, include: [documents, metadatas] })]. *)
Record Collection := mkCollection {
  coll_count : outcome Z;
  coll_query : QueryOptions -> outcome QueryResponse;
  coll_get : string -> outcome GetResponse;
  coll_add : AddRequest -> outcome unit
}.

(** A [ChromaClient], for the collection named [warhammer_lore]. *)
Record ChromaClient := mkClient {
  getOrCreateCollection : outcome Collection;
  deleteCollection : outcome unit
}.

(** The calls made to the collaborators, in the order they are awaited. *)
Inductive extcall :=
| EvGetOrCreateCollection
| EvDeleteCollection
| EvCount
| EvEmbed (input : string)
| EvQuery (q : QueryOptions)
| EvGet (t : string)
| EvAdd (r : AddRequest).

(** A method of an object of type [S] returning an [A]: the outcome, the
    object afterwards (mutations made before a throw persist) and the calls
    made. *)
Definition M (S A : Type) : Type := S -> outcome A * S * list extcall.

Definition ret {S A} (a : A) : M S A := fun s => (Ok a, s, []).

Definition throw {S A} (e : error) : M S A := fun s => (Throw e, s, []).

Definition bind {S A B} (m : M S A) (k : A -> M S B) : M S B :=
  fun s =>
    match m s with
    | (Ok a, s1, l1) =>
        let '(o, s2, l2) := k a s1 in (o, s2, (l1 ++ l2)%list)
    | (Throw e, s1, l1) => (Throw e, s1, l1)
    end.

Notation "'let*' x ':=' m 'in' k" := (bind m (fun x => k))
  (at level 10, x pattern, m at level 200, k at level 200).

(** [this] *)
Definition this {S} : M S S := fun s => (Ok s, s, []).

(** Assignment to fields of [this]. *)
Definition update {S} (f : S -> S) : M S unit := fun s => (Ok tt, f s, []).

(** An awaited call to a collaborator. *)
Definition call {S A} (ev : extcall) (o : outcome A) : M S A :=
  fun s => (o, s, [ev]).

(** [try { m } catch (error) { h error }] *)
Definition try_catch {S A} (m : M S A) (h : error -> M S A) : M S A :=
  fun s =>
    match m s with
    | (Ok a, s1, l1) => (Ok a, s1, l1)
    | (Throw e, s1, l1) =>
        let '(o, s2, l2) := h e s1 in (o, s2, (l1 ++ l2)%list)
    end.

(** Running a method of a field of [this]. *)
Definition on_field {S T A} (proj : S -> T) (inj : T -> S -> S) (m : M T A)
  : M S A :=
  fun s => let '(o, t, l) := m (proj s) in (o, inj t s, l).

Definition result_of {S A} (r : outcome A * S * list extcall) : outcome A :=
  fst (fst r).
Definition state_of {S A} (r : outcome A * S * list extcall) : S :=
  snd (fst r).
Definition calls_of {S A} (r : outcome A * S * list extcall) : list extcall :=
  snd r.

(** ** The lore repository ([database.ts]) *)

(** [LoreDocument] and its [metadata]. *)
Record DocMetadata := mkDocMetadata {
  md_title : string;
  md_type : string;
  md_aliases : option (list string);
  md_tags : option (list string);
  md_url : option string
}.

Record LoreDocument := mkDocument {
  doc_id : string;
  doc_text : string;
  doc_metadata : DocMetadata
}.

(** The options of a search: the type of [LoreDatabase.search]'s [options]
    and [LoreSearchOptions], a missing field being [undefined]. *)
Record LoreSearchOptions := mkOptions {
  opt_limit : option Z;
  opt_category : option LoreCategory;
  opt_minRelevance : option Q;
  opt_includeSummary : option bool
}.

(** The object literal [{}]. *)
Definition no_options : LoreSearchOptions :=
  {| opt_limit := None; opt_category := None; opt_minRelevance := None;
     opt_includeSummary := None |}.

(** A default in a destructuring pattern: [{ x = d } = options]. *)
Definition default {A} (d : A) (v : option A) : A :=
  match v with
  | Some a => a
  | None => d
  end.

(** The private fields of a [LoreDatabase]. *)
Record LoreDatabase := mkDatabase {
  client : ChromaClient;
  collection : option Collection;
  db_initialized : bool
}.

(** [new LoreDatabase(path)], [path] having selected the client. *)
Definition new_LoreDatabase (c : ChromaClient) : LoreDatabase :=
  {| client := c; collection := None; db_initialized := false |}.

Definition set_collection (c : option Collection) (d : LoreDatabase)
  : LoreDatabase :=
  {| client := client d; collection := c; db_initialized := db_initialized d |}.

Definition set_db_initialized (b : bool) (d : LoreDatabase) : LoreDatabase :=
  {| client := client d; collection := collection d; db_initialized := b |}.

Definition NOT_INITIALIZED_DB : error :=
  Error "Database not initialized. Call initialize() first.".

(** [x || 0] on a possibly missing number. *)
Definition or_zero (v : option Q) : Q :=
  match v with
  | Some d => if Qeq_bool d 0 then 0%Q else d
  | None => 0%Q
  end.

(** [(meta?.url as string) || undefined] and the like. *)
Definition or_undefined (v : option string) : option string :=
  match v with
  | Some s => if truthy s then Some s else None
  | None => None
  end.

(** [meta?.f] *)
Definition meta_field (f : Metadata -> option string) (meta : option Metadata)
  : option string :=
  match meta with
  | Some m => f m
  | None => None
  end.

(** [a?.[i]] on a possibly missing array of possibly null elements. *)
Definition at_index {A} (a : option (list (option A))) (i : nat) : option A :=
  match a with
  | Some l => nth i l None
  | None => None
  end.

(** The distance the loop of [search] reads at index [i]. *)
Definition distance_at (results : QueryResponse) (i : nat) : Q :=
  or_zero (at_index (qr_distances results) i).

(** The body of the loop of [search] at index [i], [doc] being
    [results.documents[0][i]]: the result pushed, if any. *)
Definition search_entry (results : QueryResponse) (minRelevance : Q)
    (i : nat) (doc : option string) : option LoreResult :=
  let meta := at_index (qr_metadatas results) i in
  let distance := distance_at results i in
  let relevance := (1 - distance)%Q in
  if Qle_bool minRelevance relevance then
    Some {| text := or_default doc "";
            title := or_default (meta_field meta_title meta) "Unknown";
            type_ := or_default (meta_field meta_type meta) "general";
            relevance := relevance;
            url := or_undefined (meta_field meta_url meta) |}
  else None.

(** [for (let i = 0; i < results.documents[0].length; i++)], from index [i]
    on, [docs] being the documents not yet visited. *)
Fixpoint search_loop (results : QueryResponse) (minRelevance : Q)
    (docs : list (option string)) (i : nat) (loreResults : list LoreResult)
  : list LoreResult :=
  match docs with
  | [] => loreResults
  | doc :: rest =>
      let loreResults' :=
        match search_entry results minRelevance i doc with
        | Some r => (loreResults ++ [r])%list
        | None => loreResults
        end in
      search_loop results minRelevance rest (S i) loreResults'
  end.

(** "Transform results" *)
Definition transform_results (results : QueryResponse) (minRelevance : Q)
  : list LoreResult :=
  match qr_documents results with
  | Some docs => search_loop results minRelevance docs 0 []
  | None => []
  end.

(** The [where] clause for a category. *)
Definition where_clause (category : LoreCategory) : option string :=
  match category with
  | any => None
  | c => Some (category_str c)
  end.

(** What [getByTitle] makes of the answer of [collection.get]. *)
Definition getByTitle_result (results : GetResponse) (t : string)
  : option LoreResult :=
  match at_index (gr_documents results) 0 with
  | Some doc =>
      if truthy doc then
        let meta := at_index (gr_metadatas results) 0 in
        Some {| text := doc;
                title := or_default (meta_field meta_title meta) t;
                type_ := or_default (meta_field meta_type meta) "general";
                relevance := 1%Q;
                url := or_undefined (meta_field meta_url meta) |}
      else None
  | None => None
  end.

(** [d.metadata.aliases?.join('|') || ''] *)
Definition joined (v : option (list string)) : string :=
  match v with
  | Some l => join "|" l
  | None => ""
  end.

Definition stored_metadata (d : LoreDocument) : Metadata :=
  let m := doc_metadata d in
  {| meta_title := Some (md_title m);
     meta_type := Some (md_type m);
     meta_aliases := Some (joined (md_aliases m));
     meta_tags := Some (joined (md_tags m));
     meta_url := Some (default "" (md_url m)) |}.

Section Repository.

(** The module-level embedding model: [embedder] applied to a text with
    mean pooling and normalisation, loading the model included. *)
Variable embedder : string -> outcome embedding.

(** [embed(text)] *)
Definition embed {S} (input : string) : M S embedding :=
  call (EvEmbed input) (embedder input).

(** [LoreDatabase.initialize] *)
Definition db_initialize : M LoreDatabase unit :=
  let* d := this in
  if db_initialized d then ret tt
  else
    let* c := call EvGetOrCreateCollection (getOrCreateCollection (client d)) in
    let* _ := update (set_collection (Some c)) in
    let* _ := call EvCount (coll_count c) in
    update (set_db_initialized true).

(** [LoreDatabase.isInitialized] *)
Definition isInitialized (d : LoreDatabase) : bool := db_initialized d.

(** [LoreDatabase.count] *)
Definition db_count : M LoreDatabase Z :=
  let* d := this in
  match collection d with
  | None => ret 0
  | Some c => call EvCount (coll_count c)
  end.

(** The loop computing one embedding per document. *)
Fixpoint embed_all {S} (documents : list LoreDocument)
    (embeddings : list embedding) : M S (list embedding) :=
  match documents with
  | [] => ret embeddings
  | doc :: rest =>
      let* e := embed (doc_text doc) in
      embed_all rest (embeddings ++ [e])%list
  end.

(** [LoreDatabase.addDocuments] *)
Definition addDocuments (documents : list LoreDocument)
  : M LoreDatabase unit :=
  let* d := this in
  match collection d with
  | None => throw NOT_INITIALIZED_DB
  | Some c =>
      match documents with
      | [] => ret tt
      | _ :: _ =>
          let* embeddings := embed_all documents [] in
          let request :=
            {| add_ids := map doc_id documents;
               add_embeddings := embeddings;
               add_documents := map doc_text documents;
               add_metadatas := map stored_metadata documents |} in
          call (EvAdd request) (coll_add c request)
      end
  end.

(** [LoreDatabase.search] *)
Definition db_search (query : string) (options : LoreSearchOptions)
  : M LoreDatabase (list LoreResult) :=
  let* d := this in
  match collection d with
  | None => throw NOT_INITIALIZED_DB
  | Some c =>
      let limit := default 5 (opt_limit options) in
      let category := default any (opt_category options) in
      let minRelevance := default (3 # 10)%Q (opt_minRelevance options) in
      let* queryEmbedding := embed query in
      let queryOptions :=
        {| queryEmbeddings := [queryEmbedding];
           nResults := limit;
           where_type := where_clause category |} in
      let* results := call (EvQuery queryOptions) (coll_query c queryOptions) in
      ret (transform_results results minRelevance)
  end.

(** [LoreDatabase.getByTitle] *)
Definition db_getByTitle (t : string) : M LoreDatabase (option LoreResult) :=
  let* d := this in
  match collection d with
  | None => throw NOT_INITIALIZED_DB
  | Some c =>
      let* results := call (EvGet t) (coll_get c t) in
      ret (getByTitle_result results t)
  end.

(** [LoreDatabase.clear] *)
Definition db_clear : M LoreDatabase unit :=
  let* d := this in
  match collection d with
  | None => ret tt
  | Some _ =>
      let* _ := call EvDeleteCollection (deleteCollection (client d)) in
      let* c := call EvGetOrCreateCollection (getOrCreateCollection (client d)) in
      update (set_collection (Some c))
  end.

End Repository.

(** ** The retrieval service ([service.ts]) *)

(** The private fields of a [RAGService]. *)
Record RAGService := mkService {
  db : LoreDatabase;
  initialized : bool
}.

(** [new RAGService(path)] *)
Definition new_RAGService (c : ChromaClient) : RAGService :=
  {| db := new_LoreDatabase c; initialized := false |}.

Definition set_db (d : LoreDatabase) (s : RAGService) : RAGService :=
  {| db := d; initialized := initialized s |}.

Definition set_initialized (b : bool) (s : RAGService) : RAGService :=
  {| db := db s; initialized := b |}.

(** A method of [this.db] run from a method of the service. *)
Definition on_db {A} (m : M LoreDatabase A) : M RAGService A :=
  on_field db set_db m.

Definition NOT_INITIALIZED_SERVICE : error :=
  Error "RAG Service not initialized".

(** [RAGService.isReady] *)
Definition isReady (s : RAGService) : bool :=
  initialized s && isInitialized (db s).

Section Service.

Variable embedder : string -> outcome embedding.

(** [RAGService.initialize] *)
Definition initialize : M RAGService unit :=
  let* s := this in
  if initialized s then ret tt
  else
    let* _ := on_db (db_initialize) in
    update (set_initialized true).

(** [RAGService.getDocumentCount] *)
Definition getDocumentCount : M RAGService Z := on_db db_count.

(** [RAGService.search] *)
Definition search (query : string) (options : LoreSearchOptions)
  : M RAGService (list LoreResult) :=
  let* s := this in
  if negb (initialized s) then throw NOT_INITIALIZED_SERVICE
  else
    let limit := default 5 (opt_limit options) in
    let category := default any (opt_category options) in
    let minRelevance := default (3 # 10)%Q (opt_minRelevance options) in
    on_db (db_search embedder query
             {| opt_limit := Some limit;
                opt_category := Some category;
                opt_minRelevance := Some minRelevance;
                opt_includeSummary := None |}).

(** [RAGService.getByTitle] *)
Definition getByTitle (t : string) : M RAGService (option LoreResult) :=
  let* s := this in
  if negb (initialized s) then throw NOT_INITIALIZED_SERVICE
  else on_db (db_getByTitle t).

(** [RAGService.searchWithContext]; [maxContextLength] is the extra field
    of its options. *)
Definition searchWithContext (query : string) (searchOptions : LoreSearchOptions)
    (maxContextLength : option Z) : M RAGService LoreContext :=
  let* results := search query searchOptions in
  ret (buildContext results (default 2000 maxContextLength)).

(** [RAGService.lookupEntity]; a category, when given, is a non-empty
    string and so passes the test [if (category)]. *)
Definition lookupEntity (name : string) (category : option LoreCategory)
  : M RAGService (option LoreResult) :=
  let* exact := getByTitle name in
  match exact with
  | Some r => ret (Some r)
  | None =>
      let searchOptions :=
        {| opt_limit := Some 1;
           opt_category := category;
           opt_minRelevance := None;
           opt_includeSummary := None |} in
      let* results := search name searchOptions in
      ret (hd_error results)
  end.

(** [RAGService.getContextForSituation] *)
Definition getContextForSituation (situation : string) (entities : list string)
  : M RAGService LoreContext :=
  let query := join " " (situation :: entities) in
  let* results :=
    search query
      {| opt_limit := Some 5;
         opt_category := None;
         opt_minRelevance := Some (1 # 4)%Q;
         opt_includeSummary := None |} in
  ret (buildContext results 3000).

(** ** The [warhammer_context] tool ([rag-handlers.ts]) *)

(** The arguments of the tool as they arrive; a missing one is
    [undefined]. *)
Record ContextArgs := mkContextArgs {
  arg_situation : string;
  arg_entities : option (list string);
  arg_maxLength : option Z
}.

(** [{ content: [{ type: 'text', text }] }] *)
Record ToolResponse := mkToolResponse {
  content : list string
}.

Definition formatResponse (t : string) : ToolResponse :=
  {| content := [t] |}.

(** [(args.maxLength as number) || 2000] *)
Definition or_2000 (v : option Z) : Z :=
  match v with
  | Some 0 => 2000
  | Some n => n
  | None => 2000
  end.

Definition NO_RELEVANT_LORE : string :=
  "No relevant lore found for this situation." ++ nl ++ nl ++
  "Consider using warhammer_lore_search with specific keywords from the situation.".

(** The text rendered for a context with sources. *)
Definition render_context (context : LoreContext) : string :=
  ctx_text context ++ nl ++ "---" ++ nl ++ "*Sources: "
    ++ join ", " (sources context) ++ "*".

(** [handleRAGTool], case ['warhammer_context'], inside the handler's
    [try]/[catch]. *)
Definition handle_warhammer_context (args : ContextArgs)
  : M RAGService ToolResponse :=
  try_catch
    (let situation := arg_situation args in
     let entities := default [] (arg_entities args) in
     let maxLength := or_2000 (arg_maxLength args) in
     let* context := getContextForSituation situation entities in
     if sourceCount context =? 0 then ret (formatResponse NO_RELEVANT_LORE)
     else ret (formatResponse (render_context context)))
    (fun e => let 'Error message := e in
              ret (formatResponse ("**Error:** " ++ message))).

End Service.

(** ** The ingestion script ([scripts/ingest-lexicanum.ts]) *)

Definition BATCH_SIZE : Z := 50.

(** [LexicanumEntry] and its [content]. *)
Record EntryContent := mkEntryContent {
  summary : option string;
  description : option string;
  content_text : option string
}.

Record LexicanumEntry := mkEntry {
  entry_id : option string;
  entry_title : option string;
  entry_content : option EntryContent;
  entry_type : option string;
  entry_aliases : option (list string);
  entry_tags : option (list string);
  entry_url : option string
}.

Module JsText.

(** White space removed by [trim], among the codes below 256: tab to
    carriage return, space and the no-break space. *)
Definition is_space (c : ascii) : bool :=
  let n := nat_of_ascii c in
  ((9 <=? n) && (n <=? 13) || (n =? 32) || (n =? 160))%nat.

Fixpoint trimStart (s : string) : string :=
  match s with
  | EmptyString => EmptyString
  | String c s' => if is_space c then trimStart s' else s
  end.

Fixpoint trimEnd (s : string) : string :=
  match s with
  | EmptyString => EmptyString
  | String c s' =>
      match trimEnd s' with
      | EmptyString => if is_space c then EmptyString else String c EmptyString
      | t => String c t
      end
  end.

(** [s.trim()] *)
Definition trim (s : string) : string := trimEnd (trimStart s).

(** The lower case of a code below 256: the letters A to Z and the
    accented capitals 192 to 222, the sign 215 apart. *)
Definition lower (c : ascii) : ascii :=
  let n := nat_of_ascii c in
  if ((65 <=? n) && (n <=? 90)
      || (192 <=? n) && (n <=? 222) && negb (n =? 215))%nat
  then ascii_of_nat (n + 32) else c.

(** [s.toLowerCase()], on codes below 256. *)
Fixpoint toLowerCase (s : string) : string :=
  match s with
  | EmptyString => EmptyString
  | String c s' => String (lower c) (toLowerCase s')
  end.

(** [s.includes(sub)] *)
Definition includes (s sub : string) : bool :=
  match String.index 0 sub s with
  | Some _ => true
  | None => false
  end.

End JsText.
Import JsText.

(** [[a, b, c].filter(Boolean)] on possibly missing strings. *)
Definition filter_Boolean (parts : list (option string)) : list string :=
  flat_map (fun p => match p with
                     | Some s => if truthy s then [s] else []
                     | None => []
                     end) parts.

(** "Extract text from content", with the fall-back to the title. *)
Definition extract_text (entry : LexicanumEntry) : string :=
  let text0 :=
    match entry_content entry with
    | Some c =>
        join (nl ++ nl)
          (filter_Boolean [summary c; description c; content_text c])
    | None => ""
    end in
  if negb (truthy text0) && truthy (default "" (entry_title entry))
  then default "" (entry_title entry)
  else text0.

(** "Determine type" and "Normalize common types": each test reads the
    value left by the tests before it. *)
Definition normalize_type (entry : LexicanumEntry) : string :=
  let any_of (t : string) (subs : list string) : bool :=
    existsb (includes t) subs in
  let step (t : string) (subs : list string) (to : string) : string :=
    if any_of t subs then to else t in
  let t := or_default (option_map toLowerCase (entry_type entry)) "general" in
  let t := step t ["person"; "character"] "character" in
  let t := step t ["place"; "city"; "region"] "location" in
  let t := step t ["creature"; "monster"; "race"] "creature" in
  let t := step t ["weapon"; "artifact"; "magic item"] "item" in
  let t := step t ["battle"; "war"; "event"] "event" in
  let t := step t ["guild"; "order"; "faction"] "organization" in
  let t := step t ["god"; "deity"] "deity" in
  let t := step t ["spell"; "magic"] "spell" in
  t.

Section Ingestion.

(** [JSON.parse(line)] read at type [LexicanumEntry]; [None] is a line on
    which the body of the [try] throws. *)
Variable JSON_parse : string -> option LexicanumEntry.

(** The digits [Math.random().toString(36).slice(2)] drawn for the entry at
    a given position of the run. *)
Variable Math_random : nat -> string.

Variable embedder : string -> outcome embedding.

(** [parseEntry], for the entry at position [i]. *)
Definition parseEntry (i : nat) (line : string) : option LoreDocument :=
  match JSON_parse line with
  | None => None
  | Some entry =>
      let text := extract_text entry in
      if len text <? 50 then None
      else
        let truncatedText := slice0 text 3000 in
        let type := normalize_type entry in
        Some {| doc_id := or_default (entry_id entry)
                            ("entry_" ++ Math_random i);
                doc_text := truncatedText;
                doc_metadata :=
                  {| md_title := or_default (entry_title entry) "Unknown";
                     md_type := type;
                     md_aliases := entry_aliases entry;
                     md_tags := entry_tags entry;
                     md_url := entry_url entry |} |}
  end.

(** The counters and the pending batch of [ingestDataset]. *)
Record IngestVars := mkIngestVars {
  batch : list LoreDocument;
  totalProcessed : Z;
  totalIndexed : Z;
  errors : Z
}.

(** "Process batch": the [try]/[catch] around [db.addDocuments(batch)],
    giving the two counters it updates. *)
Definition index_batch (v : IngestVars) (pending : list LoreDocument)
  : M LoreDatabase (Z * Z) :=
  try_catch
    (let* _ := addDocuments embedder pending in
     ret (totalIndexed v + Z.of_nat (List.length pending), errors v))
    (fun _ => ret (totalIndexed v, errors v + 1)).

(** [for (const entry of entries)], [i] being the position of [entry]. *)
Fixpoint ingest_loop (entries : list string) (i : nat) (v : IngestVars)
  : M LoreDatabase IngestVars :=
  match entries with
  | [] => ret v
  | entry :: rest =>
      let processed := totalProcessed v + 1 in
      let pending :=
        match parseEntry i (trim entry) with
        | Some doc => (batch v ++ [doc])%list
        | None => batch v
        end in
      if Z.of_nat (List.length pending) >=? BATCH_SIZE then
        let* (indexed, errs) := index_batch v pending in
        ingest_loop rest (S i)
          {| batch := []; totalProcessed := processed;
             totalIndexed := indexed; errors := errs |}
      else
        ingest_loop rest (S i)
          {| batch := pending; totalProcessed := processed;
             totalIndexed := totalIndexed v; errors := errors v |}
  end.

(** The processing part of [ingestDataset], from the parts of the file
    between [$$$] separators to the final counters. *)
Definition ingest_entries (fileParts : list string)
  : M LoreDatabase IngestVars :=
  let entries := filter (fun e => truthy (trim e)) fileParts in
  let* v := ingest_loop entries 0
              {| batch := []; totalProcessed := 0;
                 totalIndexed := 0; errors := 0 |} in
  if Z.of_nat (List.length (batch v)) >? 0 then
    let* (indexed, errs) := index_batch v (batch v) in
    ret {| batch := batch v; totalProcessed := totalProcessed v;
           totalIndexed := indexed; errors := errs |}
  else ret v.

End Ingestion.

(** ** The contract of the vector index, as the repository relies on it *)

(** The documents of an answer; none when the row is missing. *)
Definition hit_documents (results : QueryResponse) : list (option string) :=
  default [] (qr_documents results).

(** The distances the loop of [search] reads, hit by hit. *)
Definition hit_distances (results : QueryResponse) : list Q :=
  map (distance_at results) (seq 0 (List.length (hit_documents results))).


(** The answer only holds documents whose stored [type] is [ty]: what an
    index that applies [where: { type: ty }] returns. *)
Definition honours_where (results : QueryResponse) (ty : string) : Prop :=
  forall i, (i < List.length (hit_documents results))%nat ->
    exists m, at_index (qr_metadatas results) i = Some m /\ meta_type m = Some ty.


(** The query [LoreDatabase.search] sends for an embedding and options. *)
Definition query_for (v : embedding) (options : LoreSearchOptions)
  : QueryOptions :=
  {| queryEmbeddings := [v];
     nResults := default 5 (opt_limit options);
     where_type := where_clause (default any (opt_category options)) |}.

(** The composite query in the words of the specification: the situation
    first, then each entity name in input order after a single space. *)
Fixpoint composite_query (situation : string) (entities : list string)
  : string :=
  match entities with
  | [] => situation
  | e :: rest => composite_query (situation ++ " " ++ e) rest
  end.

(** The options [lookupEntity] searches with when the exact lookup fails. *)
Definition fallback_options (category : option LoreCategory)
  : LoreSearchOptions :=
  {| opt_limit := Some 1; opt_category := category;
     opt_minRelevance := None; opt_includeSummary := None |}.

(** The options [getContextForSituation] searches with. *)
Definition situation_options : LoreSearchOptions :=
  {| opt_limit := Some 5; opt_category := None;
     opt_minRelevance := Some (1 # 4)%Q; opt_includeSummary := None |}.

(** The texts handed to [collection.add] by a sequence of calls. *)
Definition stored_texts (calls : list extcall) : list string :=
  flat_map (fun ev => match ev with
                      | EvAdd r => add_documents r
                      | _ => []
                      end) calls.

(** The lengths the ingestion lets through. *)
Definition ingestible (t : string) : Prop := 50 <= len t <= 3000.

(** The lines [parseEntry] turns into a document. *)
Definition yields_document (JSON_parse : string -> option LexicanumEntry)
    (line : string) : bool :=
  match JSON_parse line with
  | Some entry => 50 <=? len (extract_text entry)
  | None => false
  end.

(** The entries of a file: its parts that are not blank. *)
Definition entries_of (fileParts : list string) : list string :=
  filter (fun e => truthy (trim e)) fileParts.

(** ** The life cycle of a service *)

(** The steps by which [initialize] advances a service whose flag is still
    unset: the collection is obtained, the count succeeds, and the service's
    own flag is set once the repository's [initialize] has returned. A query
    may be served between any two of them. *)
Inductive init_step : RAGService -> RAGService -> Prop :=
| step_connect s c :
    initialized s = false ->
    db_initialized (db s) = false ->
    getOrCreateCollection (client (db s)) = Ok c ->
    init_step s (set_db (set_collection (Some c) (db s)) s)
| step_count s c n :
    initialized s = false ->
    db_initialized (db s) = false ->
    collection (db s) = Some c ->
    coll_count c = Ok n ->
    init_step s (set_db (set_db_initialized true (db s)) s)
| step_ready s :
    initialized s = false ->
    db_initialized (db s) = true ->
    init_step s (set_initialized true s).

(** The states a service created on client [c] can be in. *)
Inductive reachable (c : ChromaClient) : RAGService -> Prop :=
| reach_new : reachable c (new_RAGService c)
| reach_step s s' : reachable c s -> init_step s s' -> reachable c s'.

(** ** A small repository for examples

    Two documents, "Altdorf" (a location, at distance 1/5 of every query)
    and "Sigmar" (a deity, at distance 3/5), behind a collection that answers
    nearest first and applies the [where] clause by equality. *)
Module Demo.

Definition altdorf_text : string :=
  "Altdorf is the capital of the Empire and seat of the Emperor.".
Definition sigmar_text : string :=
  "Sigmar Heldenhammer is the founder and patron god of the Empire.".

Definition meta (t ty : string) : Metadata :=
  {| meta_title := Some t; meta_type := Some ty; meta_aliases := Some "";
     meta_tags := Some ""; meta_url := Some "" |}.

Definition rows : list (string * Metadata * Q) :=
  [ (altdorf_text, meta "Altdorf" "location", (1 # 5)%Q);
    (sigmar_text, meta "Sigmar" "deity", (3 # 5)%Q) ].

Definition matches (w : option string) (row : string * Metadata * Q) : bool :=
  match w, meta_type (snd (fst row)) with
  | None, _ => true
  | Some ty, Some ty' => String.eqb ty ty'
  | Some _, None => false
  end.

Definition answer (q : QueryOptions) : QueryResponse :=
  let hits := firstn (Z.to_nat (nResults q)) (filter (matches (where_type q)) rows) in
  {| qr_documents := Some (map (fun r => Some (fst (fst r))) hits);
     qr_metadatas := Some (map (fun r => Some (snd (fst r))) hits);
     qr_distances := Some (map (fun r => Some (snd r)) hits) |}.

Definition by_title (t : string) : GetResponse :=
  let hits := filter (fun r => match meta_title (snd (fst r)) with
                               | Some t' => String.eqb t t'
                               | None => false
                               end) rows in
  {| gr_documents := Some (map (fun r => Some (fst (fst r))) hits);
     gr_metadatas := Some (map (fun r => Some (snd (fst r))) hits) |}.

Definition lore : Collection :=
  {| coll_count := Ok 2;
     coll_query := fun q => Ok (answer q);
     coll_get := fun t => Ok (by_title t);
     coll_add := fun _ => Ok tt |}.

Definition chroma : ChromaClient :=
  {| getOrCreateCollection := Ok lore; deleteCollection := Ok tt |}.

(** An embedding model that never fails. *)
Definition model (input : string) : outcome embedding :=
  Ok [inject_Z (len input)].

(** The service after a successful [initialize]. *)
Definition ready : RAGService :=
  {| db := {| client := chroma; collection := Some lore;
              db_initialized := true |};
     initialized := true |}.

End Demo.

(** A reader of three known lines for examples: a record of 4000
    characters of text, a record of 9, and anything else malformed. *)
Module DemoIngest.

Definition entry (body : string) : LexicanumEntry :=
  {| entry_id := Some "e1"; entry_title := Some "Altdorf";
     entry_content := Some {| summary := None; description := None;
                              content_text := Some body |};
     entry_type := Some "City"; entry_aliases := None; entry_tags := None;
     entry_url := None |}.

Definition parse (line : string) : option LexicanumEntry :=
  if String.eqb line "long" then Some (entry (repeat "x" 4000))
  else if String.eqb line "short" then Some (entry "too short")
  else None.

Definition random (i : nat) : string := "k3x9".

End DemoIngest.

(** ** Further operations of the service, the handlers and the script *)

(** The entries of a list of results, formatted whole and put end to end. *)
Definition entries_text (results : list LoreResult) : string :=
  fold_right (fun r acc => format_entry r ++ acc) "" results.

(** The requests handed to [collection.add] by a sequence of calls. *)
Definition add_requests (calls : list extcall) : list AddRequest :=
  flat_map (fun ev => match ev with
                      | EvAdd r => [r]
                      | _ => []
                      end) calls.

(** The request [addDocuments] builds for a batch and its embeddings. *)
Definition add_request_for (documents : list LoreDocument)
    (embeddings : list embedding) : AddRequest :=
  {| add_ids := map doc_id documents;
     add_embeddings := embeddings;
     add_documents := map doc_text documents;
     add_metadatas := map stored_metadata documents |}.

(** The seed queries of [getRandomLore]. *)
Definition seed_queries : list string :=
  [ "Empire provinces cities";
    "Chaos gods Warhammer";
    "Sigmar history";
    "Beastmen creatures";
    "Skaven Under-Empire" ].

(** [Math.floor(u * n)] for a draw [u] of [Math.random()]. *)
Definition random_index (u : Q) (n : nat) : Z :=
  Qfloor (u * inject_Z (Z.of_nat n)).

(** [a[i]] for an integral [i]: [undefined] outside the array. *)
Definition js_nth {A} (a : list A) (i : Z) : option A :=
  if i <? 0 then None else nth_error a (Z.to_nat i).

(** [Math.round(x)]: the nearest integer, halves going up. *)
Definition Math_round (x : Q) : Z := Qfloor (x + (1 # 2)).

(** An integer in a template literal. *)
Definition Z_to_string (z : Z) : string := NilZero.string_of_int (Z.to_int z).

(** The double quote. *)
Definition dq : string := String (ascii_of_nat 34) EmptyString.

(** [s.startsWith(p)] *)
Definition startsWith (s p : string) : bool := String.prefix p s.

(** [isRAGTool] *)
Definition isRAGTool (toolName : string) : bool :=
  startsWith toolName "warhammer_".

(** [isWFRP4eTool] *)
Definition isWFRP4eTool (toolName : string) : bool :=
  startsWith toolName "wfrp_".

(** [(args.limit as number) || 5] *)
Definition or_5 (v : option Z) : Z :=
  match v with
  | Some 0 => 5
  | Some n => n
  | None => 5
  end.

(** [Math.min(Math.max(n, 1), 10)] *)
Definition clamp_limit (n : Z) : Z := Z.min (Z.max n 1) 10.

(** The arguments of a call of a lore tool that has the fields its input
    schema requires; an optional one that is missing is [undefined]. Each
    tool reads its own fields. *)
Record ToolArgs := mkToolArgs {
  a_query : string;
  a_name : string;
  a_situation : string;
  a_category : option LoreCategory;
  a_limit : option Z;
  a_entities : option (list string);
  a_maxLength : option Z
}.

Definition NO_LORE_FOUND (query : string) : string :=
  "No lore found for: " ++ dq ++ query ++ dq ++ nl ++ nl ++
  "Try:" ++ nl ++
  "- Using different keywords" ++ nl ++
  "- Removing category filters" ++ nl ++
  "- Checking spelling of proper nouns".

(** One entry of the search results, [i] being its index. *)
Definition format_search_result (i : nat) (r : LoreResult) : string :=
  "### " ++ Z_to_string (Z.of_nat i + 1) ++ ". " ++ title r
         ++ " (" ++ type_ r ++ ")" ++ nl ++
  "**Relevance:** " ++ Z_to_string (Math_round (relevance r * 100)) ++ "%"
         ++ nl ++ nl ++
  slice0 (text r) 500 ++ (if len (text r) >? 500 then "..." else "").

(** [results.map((r, i) => ...)] from index [i] on. *)
Fixpoint format_search_results (i : nat) (results : list LoreResult)
  : list string :=
  match results with
  | [] => []
  | r :: rest => format_search_result i r :: format_search_results (S i) rest
  end.

Definition render_search (query : string) (category : LoreCategory)
    (results : list LoreResult) : string :=
  "## Warhammer Lore Search Results" ++ nl ++
  "*Query: " ++ dq ++ query ++ dq ++
  (match category with
   | any => ""
   | c => " | Category: " ++ category_str c
   end) ++ "*" ++ nl ++ nl ++
  join (nl ++ nl ++ "---" ++ nl ++ nl) (format_search_results 0 results).

Definition ENTITY_NOT_FOUND (name : string) : string :=
  "Entity not found: " ++ dq ++ name ++ dq ++ nl ++ nl ++
  "This entity may not exist in the Lexicanum database, or you may need to try:"
    ++ nl ++
  "- A different spelling or variation of the name" ++ nl ++
  "- Using warhammer_lore_search for a broader search".

Definition render_lookup (result : LoreResult) : string :=
  "## " ++ title result ++ nl ++
  "**Type:** " ++ type_ result ++ nl ++
  "**Relevance:** " ++ Z_to_string (Math_round (relevance result * 100)) ++ "%"
    ++ nl ++ nl ++
  text result ++
  (match or_undefined (url result) with
   | Some u => nl ++ nl ++ "*Source: " ++ u ++ "*"
   | None => ""
   end).

Definition STATUS_NOT_AVAILABLE : string :=
  "## Warhammer Lore Database Status" ++ nl ++ nl ++
  "**Status:** Not Available" ++ nl ++ nl ++
  "The lore database is not initialized. This could mean:" ++ nl ++
  "- ChromaDB is not running" ++ nl ++
  "- The Lexicanum dataset hasn't been ingested" ++ nl ++
  "- Configuration is missing" ++ nl ++ nl ++
  "Run the ingestion script to populate the database:" ++ nl ++
  "`npx tsx scripts/ingest-lexicanum.ts`".

Definition render_status (count : string) : string :=
  "## Warhammer Lore Database Status" ++ nl ++ nl ++
  "**Status:** Online" ++ nl ++
  "**Documents:** " ++ count ++ nl ++ nl ++
  "The Warhammer lore database is ready for queries." ++ nl ++ nl ++
  "Available tools:" ++ nl ++
  "- `warhammer_lore_search` - Semantic search for lore" ++ nl ++
  "- `warhammer_lore_lookup` - Look up specific entities" ++ nl ++
  "- `warhammer_context` - Get context for game situations".

(** The [catch] of [handleRAGTool]. *)
Definition error_response (e : error) : M RAGService ToolResponse :=
  let 'Error message := e in ret (formatResponse ("**Error:** " ++ message)).

Section Tools.

Variable embedder : string -> outcome embedding.

(** [count.toLocaleString()], which depends on the locale of the process. *)
Variable toLocaleString : Z -> string.

(** [RAGService.getRandomLore], [u1] and [u2] being the two values drawn
    from [Math.random()]. *)
Definition getRandomLore (u1 u2 : Q) (category : option LoreCategory)
  : M RAGService (option LoreResult) :=
  let randomQuery :=
    default "Empire provinces cities"
      (js_nth seed_queries (random_index u1 (List.length seed_queries))) in
  let searchOptions :=
    {| opt_limit := Some 10; opt_category := category;
       opt_minRelevance := None; opt_includeSummary := None |} in
  let* results := search embedder randomQuery searchOptions in
  match results with
  | [] => ret None
  | _ :: _ => ret (js_nth results (random_index u2 (List.length results)))
  end.

(** [handleRAGTool], case ['warhammer_lore_search'], without the
    [try]/[catch]. *)
Definition warhammer_lore_search_case (args : ToolArgs)
  : M RAGService ToolResponse :=
  let query := a_query args in
  let category := default any (a_category args) in
  let limit := clamp_limit (or_5 (a_limit args)) in
  let* results :=
    search embedder query
      {| opt_limit := Some limit; opt_category := Some category;
         opt_minRelevance := None; opt_includeSummary := None |} in
  match results with
  | [] => ret (formatResponse (NO_LORE_FOUND query))
  | _ :: _ => ret (formatResponse (render_search query category results))
  end.

(** Case ['warhammer_lore_lookup']. *)
Definition warhammer_lore_lookup_case (args : ToolArgs)
  : M RAGService ToolResponse :=
  let name := a_name args in
  let category := a_category args in
  let* result := lookupEntity embedder name category in
  match result with
  | None => ret (formatResponse (ENTITY_NOT_FOUND name))
  | Some r => ret (formatResponse (render_lookup r))
  end.

(** Case ['warhammer_lore_status']. *)
Definition warhammer_lore_status_case : M RAGService ToolResponse :=
  let* s := this in
  if negb (isReady s) then ret (formatResponse STATUS_NOT_AVAILABLE)
  else
    let* count := getDocumentCount in
    ret (formatResponse (render_status (toLocaleString count))).

(** [handleRAGTool]: the [switch] on the tool name inside the [try]; the
    case ['warhammer_context'] is [handle_warhammer_context], which carries
    the same [catch]. *)
Definition handleRAGTool (toolName : string) (args : ToolArgs)
  : M RAGService ToolResponse :=
  if String.eqb toolName "warhammer_lore_search" then
    try_catch (warhammer_lore_search_case args) error_response
  else if String.eqb toolName "warhammer_lore_lookup" then
    try_catch (warhammer_lore_lookup_case args) error_response
  else if String.eqb toolName "warhammer_context" then
    handle_warhammer_context embedder
      {| arg_situation := a_situation args;
         arg_entities := a_entities args;
         arg_maxLength := a_maxLength args |}
  else if String.eqb toolName "warhammer_lore_status" then
    try_catch warhammer_lore_status_case error_response
  else
    try_catch (throw (Error ("Unknown RAG tool: " ++ toolName))) error_response.

End Tools.

(** The rules of "Normalize common types", in the order of the source: the
    fragments looked for and the type they give. *)
Definition type_rules : list (list string * string) :=
  [ (["person"; "character"], "character");
    (["place"; "city"; "region"], "location");
    (["creature"; "monster"; "race"], "creature");
    (["weapon"; "artifact"; "magic item"], "item");
    (["battle"; "war"; "event"], "event");
    (["guild"; "order"; "faction"], "organization");
    (["god"; "deity"], "deity");
    (["spell"; "magic"], "spell") ].

(** [entry.type?.toLowerCase() || 'general'] *)
Definition lowered_type (entry : LexicanumEntry) : string :=
  or_default (option_map toLowerCase (entry_type entry)) "general".

(** The type given by the first rule a fragment of which occurs in [t]. *)
Definition first_rule (t : string) : option string :=
  option_map snd
    (find (fun rule => existsb (includes t) (fst rule)) type_rules).

(** An entry with its type replaced. *)
Definition with_type (entry : LexicanumEntry) (t : string) : LexicanumEntry :=
  {| entry_id := entry_id entry; entry_title := entry_title entry;
     entry_content := entry_content entry; entry_type := Some t;
     entry_aliases := entry_aliases entry; entry_tags := entry_tags entry;
     entry_url := entry_url entry |}.

(** The texts a line contributes to the collection: that of its document,
    if it gives one. *)
Definition line_texts (JSON_parse : string -> option LexicanumEntry)
    (line : string) : list string :=
  match JSON_parse line with
  | Some entry =>
      if len (extract_text entry) <? 50 then []
      else [slice0 (extract_text entry) 3000]
  | None => []
  end.

(** The number of lines that give a document. *)
Definition yielded (JSON_parse : string -> option LexicanumEntry)
    (lines : list string) : Z :=
  Z.of_nat (List.length (filter (yields_document JSON_parse) lines)).

(** A request that carries a full batch. *)
Definition full_batch (r : AddRequest) : Prop :=
  Z.of_nat (List.length (add_documents r)) = BATCH_SIZE.

(** The options [getRandomLore] searches with. *)
Definition random_options (category : option LoreCategory)
  : LoreSearchOptions :=
  {| opt_limit := Some 10; opt_category := category;
     opt_minRelevance := None; opt_includeSummary := None |}.

(** The options the search tool searches with. *)
Definition tool_search_options (args : ToolArgs) : LoreSearchOptions :=
  {| opt_limit := Some (clamp_limit (or_5 (a_limit args)));
     opt_category := Some (default any (a_category args));
     opt_minRelevance := None; opt_includeSummary := None |}.

(** * Properties *)

(** ** Facts about strings *)

Lemma len_nonneg s : 0 <= len s.
Proof. unfold len; lia. Qed.

Lemma string_length_app (s t : string) :
  String.length (s ++ t) = (String.length s + String.length t)%nat.
Proof. induction s as [|c s IH]; simpl; [reflexivity | now rewrite IH]. Qed.

Lemma len_app s t : len (s ++ t) = len s + len t.
Proof. unfold len; rewrite string_length_app; lia. Qed.

Lemma length_prefix (n : nat) (s : string) :
  String.length (String.substring 0 n s) = Nat.min n (String.length s).
Proof.
  revert n; induction s as [|c s IH]; intros [|n]; simpl; try reflexivity.
  now rewrite IH.
Qed.

Lemma string_app_assoc (s t u : string) : (s ++ t) ++ u = s ++ (t ++ u).
Proof. induction s as [|ch s IH]; simpl; [reflexivity | now rewrite IH]. Qed.

Lemma string_app_nil_r (s : string) : s ++ "" = s.
Proof. induction s as [|ch s IH]; simpl; [reflexivity | now rewrite IH]. Qed.

Lemma len_slice0 s e : 0 <= e -> len (slice0 s e) = Z.min e (len s).
Proof.
  intros He; unfold slice0, len.
  destruct (e <? 0) eqn:E; [apply Z.ltb_lt in E; lia|].
  rewrite length_prefix; lia.
Qed.

Lemma len_format_entry r :
  len (format_entry r) = len (title r) + len (text r) + 7.
Proof.
  unfold format_entry; rewrite !len_app.
  change (len "### ") with 4; change (len nl) with 1; lia.
Qed.

Lemma len_format_truncated r a :
  0 <= a ->
  len (format_truncated r a) = len (title r) + Z.min a (len (text r)) + 10.
Proof.
  intros Ha; unfold format_truncated; rewrite !len_app, len_slice0 by assumption.
  change (len "### ") with 4; change (len nl) with 1; change (len "...") with 3.
  lia.
Qed.

(** ** Context packing *)

Example buildContext_two :
  buildContext [sample "A" "alpha"; sample "B" "beta"] 2000
  = {| ctx_text := HEADER ++ "### A" ++ nl ++ "alpha" ++ nl ++ nl
                          ++ "### B" ++ nl ++ "beta" ++ nl ++ nl;
       sourceCount := 2; sources := ["A"; "B"] |}.
Proof. reflexivity. Qed.

Example len_HEADER : len HEADER = 28.
Proof. reflexivity. Qed.

Lemma max_title_len_nonneg results : 0 <= max_title_len results.
Proof. induction results as [|r rs IH]; simpl; lia. Qed.

Lemma max_title_len_In r results :
  In r results -> len (title r) <= max_title_len results.
Proof.
  induction results as [|r' rs IH]; simpl; [tauto|].
  intros [->|Hin]; [lia | specialize (IH Hin); lia].
Qed.

Lemma max_title_len_le results b :
  0 <= b ->
  (forall r, In r results -> len (title r) <= b) ->
  max_title_len results <= b.
Proof.
  intros Hb; induction results as [|r rs IH]; simpl; intros H; [lia|].
  apply Z.max_lub; [apply H; now left | apply IH; intros; apply H; now right].
Qed.

(** The loop keeps [currentLength] equal to the length of [contextText]. As
    long as entries are appended whole the text stays within [maxLength]; a
    truncated entry ends [40] characters under [maxLength] plus its title. *)
Lemma buildContext_loop_length results : forall maxLength contextText currentLength srcs,
  currentLength = len contextText ->
  len (fst (buildContext_loop results maxLength contextText currentLength srcs))
  <= Z.max currentLength (maxLength + Z.max 0 (max_title_len results - 40)).
Proof.
  induction results as [|r rs IH]; intros maxLength ct cl srcs Hcl; simpl.
  - lia.
  - destruct (cl + len (format_entry r) >? maxLength) eqn:Hfull.
    + destruct (maxLength - cl - 50 >? 200) eqn:Hav; simpl.
      * apply Z.gtb_lt in Hav.
        rewrite len_app, len_format_truncated by lia.
        pose proof (max_title_len_nonneg rs). lia.
      * lia.
    + assert (Hfit : cl + len (format_entry r) <= maxLength).
      { destruct (Z.gtb_spec (cl + len (format_entry r)) maxLength); [discriminate | lia]. }
      specialize (IH maxLength (ct ++ format_entry r) (cl + len (format_entry r))
                    (srcs ++ [title r])%list).
      rewrite len_app in IH. specialize (IH ltac:(lia)).
      pose proof (max_title_len_nonneg rs). lia.
Qed.

(** The sources recorded are the titles of a prefix of the input, one per
    appended entry and in input order. *)
Lemma buildContext_loop_sources results : forall maxLength contextText currentLength srcs,
  exists pre post,
    results = (pre ++ post)%list /\
    snd (buildContext_loop results maxLength contextText currentLength srcs)
    = (srcs ++ map title pre)%list.
Proof.
  induction results as [|r rs IH]; intros maxLength ct cl srcs; simpl.
  - exists [], []; simpl; now rewrite app_nil_r.
  - destruct (cl + len (format_entry r) >? maxLength).
    + destruct (maxLength - cl - 50 >? 200); simpl.
      * exists [r], rs; split; reflexivity.
      * exists [], (r :: rs); simpl; now rewrite app_nil_r.
    + destruct (IH maxLength (ct ++ format_entry r) (cl + len (format_entry r))
                  (srcs ++ [title r])%list) as (pre & post & Hres & Hsrc).
      exists (r :: pre), post; split; [now rewrite Hres|].
      rewrite Hsrc, <- List.app_assoc; reflexivity.
Qed.

Lemma buildContext_unfold r rs maxLength :
  buildContext (r :: rs) maxLength
  = let p := buildContext_loop (r :: rs) maxLength HEADER (len HEADER) [] in
    {| ctx_text := fst p; sourceCount := Z.of_nat (List.length (snd p));
       sources := snd p |}.
Proof.
  unfold buildContext.
  destruct (buildContext_loop (r :: rs) maxLength HEADER (len HEADER) []); reflexivity.
Qed.

Lemma buildContext_length_general results maxLength :
  len (ctx_text (buildContext results maxLength))
  <= Z.max (len HEADER) (maxLength + Z.max 0 (max_title_len results - 40)).
Proof.
  destruct results as [|r rs].
  - simpl. change (len "") with 0. change (len HEADER) with 28. lia.
  - rewrite buildContext_unfold; cbv zeta; cbn [ctx_text].
    apply buildContext_loop_length; reflexivity.
Qed.

Lemma buildContext_sources_are_prefix results maxLength :
  exists pre post,
    results = (pre ++ post)%list /\
    sources (buildContext results maxLength) = map title pre.
Proof.
  destruct results as [|r rs].
  - exists [], []; split; reflexivity.
  - rewrite buildContext_unfold; cbv zeta; cbn [sources].
    apply buildContext_loop_sources.
Qed.

(** C1 (as amended): with a budget of at least the header's 28 characters
    and titles of at most 43 characters, the text of the context is at most
    [maxLength + 3] characters long; for any input it is at most the larger
    of 28 and [maxLength] plus the excess of the longest title over 40. *)
Theorem buildContext_length_bound (results : list LoreResult) (maxLength : Z) :
  len (ctx_text (buildContext results maxLength))
  <= Z.max (len HEADER) (maxLength + Z.max 0 (max_title_len results - 40))
  /\ (len HEADER <= maxLength ->
      (forall r, In r results -> len (title r) <= 43) ->
      len (ctx_text (buildContext results maxLength)) <= maxLength + 3).
Proof.
  split; [apply buildContext_length_general|].
  intros Hbudget Htitles.
  pose proof (buildContext_length_general results maxLength) as H.
  pose proof (max_title_len_le results 43 ltac:(lia) Htitles).
  lia.
Qed.

Lemma buildContext_length_bound_witness :
  let results := [sample "Altdorf" (repeat "x" 400); sample "Sigmar" (repeat "y" 3000)] in
  len HEADER <= 1000 /\
  (forall r, In r results -> len (title r) <= 43) /\
  len (ctx_text (buildContext results 1000)) <= 1000 + 3.
Proof.
  intros results.
  assert (Ht : forall r, In r results -> len (title r) <= 43).
  { intros r [<-|[<-|[]]]; vm_compute; discriminate. }
  split; [vm_compute; discriminate|].
  split; [exact Ht|].
  apply (proj2 (buildContext_length_bound results 1000)); [vm_compute; discriminate | exact Ht].
Defined.

(** C1 (as stated) fails: a truncated entry with a 60-character title ends
    20 characters over a budget of 300, and a budget of 0 still gets the
    28-character header. *)
Lemma buildContext_length_counterexample :
  ~ (len (ctx_text (buildContext [sample (repeat "T" 60) (repeat "x" 1000)] 300))
     <= 300 + 3)
  /\ ~ (len (ctx_text (buildContext [sample "A" "alpha"] 0)) <= 0 + 3).
Proof. split; vm_compute; intros H; apply H; reflexivity. Qed.

(** What the loop leaves, from any point of its run: the entries of a prefix
    of the remaining results appended whole, then nothing more, or the first
    result that does not fit cut to the room left less 50, when that room
    exceeds 200. *)
Lemma buildContext_loop_shape results : forall maxLength contextText currentLength srcs,
  currentLength = len contextText ->
  exists pre post,
    results = (pre ++ post)%list /\
    (pre <> [] -> len (contextText ++ entries_text pre) <= maxLength) /\
    let body := contextText ++ entries_text pre in
    let available := maxLength - len body - 50 in
    let out := buildContext_loop results maxLength contextText currentLength srcs in
    (post = [] /\ out = (body, (srcs ++ map title pre)%list))
    \/ (exists r post',
          post = r :: post' /\
          len body + len (format_entry r) > maxLength /\
          available <= 200 /\
          out = (body, (srcs ++ map title pre)%list))
    \/ (exists r post',
          post = r :: post' /\
          len body + len (format_entry r) > maxLength /\
          200 < available /\
          out = (body ++ format_truncated r available,
                 (srcs ++ map title pre ++ [title r])%list)).
Proof.
  induction results as [|r rs IH]; intros maxLength ct cl srcs Hcl.
  - exists [], []. cbn. rewrite string_app_nil_r, app_nil_r.
    split; [reflexivity|]. split; [congruence|]. left; split; reflexivity.
  - cbn [buildContext_loop]. subst cl.
    destruct (Z.gtb_spec (len ct + len (format_entry r)) maxLength) as [Hfull|Hfit].
    + exists [], (r :: rs). cbn [entries_text fold_right map app].
      rewrite string_app_nil_r, app_nil_r.
      split; [reflexivity|]. split; [congruence|]. cbv zeta.
      destruct (Z.gtb_spec (maxLength - len ct - 50) 200) as [Hav|Hav].
      * right; right. exists r, rs. repeat split; try lia.
      * right; left. exists r, rs. repeat split; lia.
    + destruct (IH maxLength (ct ++ format_entry r) (len ct + len (format_entry r))
                  (srcs ++ [title r])%list) as (pre & post & Hres & Hlen & Hshape).
      { now rewrite len_app. }
      exists (r :: pre), post. cbn [entries_text fold_right map].
      fold (entries_text pre). cbv zeta in Hshape |- *.
      rewrite <- !(string_app_assoc ct (format_entry r) (entries_text pre)).
      split; [now rewrite Hres|].
      split.
      { intros _. destruct pre as [|p pre].
        - cbn [entries_text fold_right]. rewrite string_app_nil_r, len_app. lia.
        - apply Hlen; discriminate. }
      assert (Hs1 : ((srcs ++ [title r]) ++ map title pre
                     = srcs ++ title r :: map title pre)%list)
        by now rewrite <- List.app_assoc.
      destruct Hshape as [[Hp H]|[(r1 & p' & Hp & Hf & Ha & H)|(r1 & p' & Hp & Hf & Ha & H)]].
      * left. split; [exact Hp|]. now rewrite H, Hs1.
      * right; left. exists r1, p'. repeat split; try assumption. now rewrite H, Hs1.
      * right; right. exists r1, p'. repeat split; try assumption.
        rewrite H. f_equal. now rewrite <- !List.app_assoc.
Qed.

Lemma count_occ_titles (appended : list LoreResult) (t : string) :
  count_occ string_dec (map title appended) t
  = List.length (filter (fun r => String.eqb (title r) t) appended).
Proof.
  induction appended as [|r rest IH]; [reflexivity|]. cbn [map count_occ filter].
  destruct (string_dec (title r) t) as [E|E].
  - rewrite (proj2 (String.eqb_eq _ _) E). cbn [List.length]. now rewrite IH.
  - rewrite (proj2 (String.eqb_neq _ _) E). exact IH.
Qed.

(** C2 (as amended): the sources are the titles of the results appended to
    the text, one per appended entry, whole or truncated, in input order:
    the text is the header, the whole entries of [whole] and the truncated
    entry of [cut], if there is one, and the sources are the titles of
    exactly these results. So a title is listed as many times as appended
    results carry it, and the sources are free of duplicates whenever the
    titles of the input results are pairwise distinct. *)
Theorem buildContext_sources_nodup (results : list LoreResult) (maxLength : Z) :
  (exists whole cut rest,
      results = (whole ++ cut ++ rest)%list /\
      (cut = [] \/ exists r, cut = [r]) /\
      (results <> [] ->
       ctx_text (buildContext results maxLength)
       = HEADER ++ entries_text whole
           ++ match cut with
              | [] => ""
              | r :: _ =>
                  format_truncated r
                    (maxLength - len (HEADER ++ entries_text whole) - 50)
              end) /\
      sources (buildContext results maxLength) = map title (whole ++ cut) /\
      forall t,
        count_occ string_dec (sources (buildContext results maxLength)) t
        = List.length (filter (fun r => String.eqb (title r) t) (whole ++ cut)))
  /\ (NoDup (map title results) ->
      NoDup (sources (buildContext results maxLength))).
Proof.
  assert (Hshape :
    exists whole cut rest,
      results = (whole ++ cut ++ rest)%list /\
      (cut = [] \/ exists r, cut = [r]) /\
      (results <> [] ->
       ctx_text (buildContext results maxLength)
       = HEADER ++ entries_text whole
           ++ match cut with
              | [] => ""
              | r :: _ =>
                  format_truncated r
                    (maxLength - len (HEADER ++ entries_text whole) - 50)
              end) /\
      sources (buildContext results maxLength) = map title (whole ++ cut)).
  { destruct results as [|r0 rs].
    - exists [], [], []. repeat split; [now left | congruence].
    - destruct (buildContext_loop_shape (r0 :: rs) maxLength HEADER (len HEADER) []
                  eq_refl) as (pre & post & Hres & _ & Hcases).
      rewrite buildContext_unfold. cbv zeta in Hcases |- *. cbn [ctx_text sources].
      destruct Hcases as [[Hp H]|[(r & p' & Hp & _ & _ & H)|(r & p' & Hp & _ & _ & H)]];
        rewrite H; cbn [fst snd app].
      + exists pre, [], []. subst post. split; [exact Hres|].
        split; [now left|]. rewrite app_nil_r.
        split; [intros _; now rewrite !string_app_nil_r | reflexivity].
      + exists pre, [], post. split; [exact Hres|].
        split; [now left|]. rewrite app_nil_r.
        split; [intros _; now rewrite !string_app_nil_r | reflexivity].
      + exists pre, [r], p'. subst post. split; [exact Hres|].
        split; [right; now exists r|].
        split; [intros _; now rewrite string_app_assoc | now rewrite map_app]. }
  destruct Hshape as (whole & cut & rest & Hres & Hcut & Htext & Hsrc).
  split.
  - exists whole, cut, rest. repeat split; try assumption.
    intros t. rewrite Hsrc. apply count_occ_titles.
  - intros Hnd. rewrite Hsrc.
    rewrite Hres, List.app_assoc, map_app in Hnd.
    now apply NoDup_app_remove_r in Hnd.
Qed.

Lemma buildContext_sources_nodup_witness :
  let results := [sample "Altdorf" "alpha"; sample "Sigmar" "beta"] in
  NoDup (map title results) /\ NoDup (sources (buildContext results 2000)).
Proof.
  intros results.
  assert (Hnd : NoDup (map title results)).
  { repeat constructor; simpl; intuition discriminate. }
  split; [exact Hnd|].
  exact (proj2 (buildContext_sources_nodup results 2000) Hnd).
Defined.

(** C2 (as stated) fails: two appended results with the same title put that
    title into the sources twice. *)
Lemma buildContext_sources_counterexample :
  sources (buildContext [sample "Sigmar" "alpha"; sample "Sigmar" "beta"] 2000)
  = ["Sigmar"; "Sigmar"]
  /\ ~ NoDup (sources (buildContext [sample "Sigmar" "alpha"; sample "Sigmar" "beta"] 2000)).
Proof.
  split; [reflexivity|].
  intros H; inversion H as [|x l Hnotin _]; subst.
  apply Hnotin; now left.
Qed.

Lemma buildContext_sourceCount_eq results maxLength :
  sourceCount (buildContext results maxLength)
  = Z.of_nat (List.length (sources (buildContext results maxLength))).
Proof.
  destruct results as [|r rs]; [reflexivity|].
  rewrite buildContext_unfold; reflexivity.
Qed.

(** When the first entry does not fit and too little room is left for a
    truncated one, the loop stops at once and only the header is returned. *)
Lemma buildContext_nothing_fits r rs maxLength :
  len HEADER + len (format_entry r) > maxLength ->
  maxLength - len HEADER - 50 <= 200 ->
  buildContext (r :: rs) maxLength
  = {| ctx_text := HEADER; sourceCount := 0; sources := [] |}.
Proof.
  intros Hfull Hroom.
  rewrite buildContext_unfold; cbv zeta; cbn [buildContext_loop].
  destruct (Z.gtb_spec (len HEADER + len (format_entry r)) maxLength); [|lia].
  destruct (Z.gtb_spec (maxLength - len HEADER - 50) 200); [lia|].
  reflexivity.
Qed.

(** An appended entry, whole or truncated, is recorded as a source; so a
    context of a non-empty input without sources is the bare header. *)
Lemma buildContext_loop_no_sources results : forall maxLength contextText currentLength srcs,
  snd (buildContext_loop results maxLength contextText currentLength srcs) = [] ->
  fst (buildContext_loop results maxLength contextText currentLength srcs) = contextText.
Proof.
  induction results as [|r rs IH]; intros maxLength ct cl srcs; simpl; [reflexivity|].
  destruct (cl + len (format_entry r) >? maxLength).
  - destruct (maxLength - cl - 50 >? 200); simpl; [|reflexivity].
    intros H; destruct srcs; discriminate.
  - intros H.
    destruct (buildContext_loop_sources rs maxLength (ct ++ format_entry r)
                (cl + len (format_entry r)) (srcs ++ [title r])%list)
      as (pre & post & _ & Hsrc).
    rewrite Hsrc in H. destruct srcs; discriminate.
Qed.

(** C10: [sourceCount] is the length of [sources] in every context, the
    empty input giving 0 and no sources and a truncated entry being counted;
    and a non-empty input of which nothing is appended gives the header
    alone, which is not empty, with a [sourceCount] of 0. *)
Theorem buildContext_sourceCount (results : list LoreResult) (maxLength : Z) :
  sourceCount (buildContext results maxLength)
  = Z.of_nat (List.length (sources (buildContext results maxLength)))
  /\ (results = [] ->
      sourceCount (buildContext results maxLength) = 0 /\
      sources (buildContext results maxLength) = [])
  /\ (forall r rs,
        results = r :: rs ->
        len HEADER + len (format_entry r) > maxLength ->
        200 < maxLength - len HEADER - 50 ->
        ctx_text (buildContext results maxLength)
        = HEADER ++ format_truncated r (maxLength - len HEADER - 50) /\
        sources (buildContext results maxLength) = [title r] /\
        sourceCount (buildContext results maxLength) = 1)
  /\ (forall r rs,
        results = r :: rs ->
        len HEADER + len (format_entry r) > maxLength ->
        maxLength - len HEADER - 50 <= 200 ->
        ctx_text (buildContext results maxLength) = HEADER /\
        ctx_text (buildContext results maxLength) <> "" /\
        sourceCount (buildContext results maxLength) = 0)
  /\ (results <> [] ->
      sourceCount (buildContext results maxLength) = 0 ->
      ctx_text (buildContext results maxLength) = HEADER).
Proof.
  split; [apply buildContext_sourceCount_eq|].
  split; [intros ->; split; reflexivity|].
  split.
  { intros r rs -> Hfull Hroom.
    rewrite buildContext_unfold; cbv zeta; cbn [buildContext_loop].
    destruct (Z.gtb_spec (len HEADER + len (format_entry r)) maxLength); [|lia].
    destruct (Z.gtb_spec (maxLength - len HEADER - 50) 200); [|lia].
    repeat split. }
  split.
  { intros r rs -> Hfull Hroom.
    rewrite (buildContext_nothing_fits r rs maxLength Hfull Hroom); simpl.
    repeat split. discriminate. }
  intros Hne Hzero.
  destruct results as [|r rs]; [congruence|].
  rewrite buildContext_sourceCount_eq in Hzero.
  rewrite buildContext_unfold in *; cbv zeta in *; cbn [ctx_text sources] in *.
  apply buildContext_loop_no_sources.
  destruct (snd (buildContext_loop (r :: rs) maxLength HEADER (len HEADER) []));
    [reflexivity | simpl in Hzero; lia].
Qed.

Lemma buildContext_sourceCount_witness :
  let big := sample "Sigmar" (repeat "y" 3000) in
  (len HEADER + len (format_entry big) > 250 /\ 250 - len HEADER - 50 <= 200) /\
  ctx_text (buildContext [big] 250) = HEADER /\
  ctx_text (buildContext [big] 250) <> "" /\
  sourceCount (buildContext [big] 250) = 0.
Proof.
  intros big.
  assert (Hfull : len HEADER + len (format_entry big) > 250) by (vm_compute; reflexivity).
  assert (Hroom : 250 - len HEADER - 50 <= 200) by (vm_compute; discriminate).
  split; [split; assumption|].
  exact (proj1 (proj2 (proj2 (proj2 (buildContext_sourceCount [big] 250))))
           big [] eq_refl Hfull Hroom).
Defined.

(** ** Searching the repository *)

Ltac run :=
  unfold bind, this, ret, throw, call, update, try_catch, on_field; cbn.

Lemma search_loop_app results minRelevance docs : forall i acc,
  search_loop results minRelevance docs i acc
  = (acc ++ search_loop results minRelevance docs i [])%list.
Proof.
  induction docs as [|doc rest IH]; intros i acc; simpl.
  - now rewrite app_nil_r.
  - rewrite IH.
    rewrite (IH (S i) (match search_entry results minRelevance i doc with
                       | Some r => [r] | None => [] end)).
    destruct (search_entry results minRelevance i doc); simpl;
      [now rewrite <- List.app_assoc | reflexivity].
Qed.

Lemma search_entry_relevance results minRelevance i doc r :
  search_entry results minRelevance i doc = Some r ->
  relevance r = (1 - distance_at results i)%Q /\
  Qle_bool minRelevance (relevance r) = true.
Proof.
  unfold search_entry.
  destruct (Qle_bool minRelevance (1 - distance_at results i)) eqn:E; [|discriminate].
  intros [= <-]; simpl; split; [reflexivity | exact E].
Qed.

Lemma search_entry_none results minRelevance i doc :
  search_entry results minRelevance i doc = None ->
  Qle_bool minRelevance (1 - distance_at results i) = false.
Proof.
  unfold search_entry.
  destruct (Qle_bool minRelevance (1 - distance_at results i)); [discriminate | reflexivity].
Qed.

(** The relevances pushed by the loop are the values [1 - d] of the hits
    visited, in the order of the hits, less those under the floor. *)
Lemma search_loop_relevances results minRelevance docs : forall i,
  map relevance (search_loop results minRelevance docs i [])
  = filter (Qle_bool minRelevance)
      (map (fun d => (1 - d)%Q)
         (map (distance_at results) (seq i (List.length docs)))).
Proof.
  induction docs as [|doc rest IH]; intros i; simpl; [reflexivity|].
  rewrite search_loop_app, map_app, IH.
  destruct (search_entry results minRelevance i doc) as [r|] eqn:E.
  - destruct (search_entry_relevance _ _ _ _ _ E) as [Hr Hle].
    simpl. rewrite <- Hr, Hle. reflexivity.
  - rewrite (search_entry_none _ _ _ _ E). reflexivity.
Qed.

Lemma transform_results_relevances results minRelevance :
  map relevance (transform_results results minRelevance)
  = filter (Qle_bool minRelevance)
      (map (fun d => (1 - d)%Q) (hit_distances results)).
Proof.
  unfold transform_results, hit_distances, hit_documents.
  destruct (qr_documents results) as [docs|]; simpl; [|reflexivity].
  apply search_loop_relevances.
Qed.






(** On an initialised repository, with the model and the index answering,
    [search] embeds the query, sends one query and returns the transformed
    answer; the repository is left as it was. *)
Lemma db_search_run embedder d c query options v results :
  collection d = Some c ->
  embedder query = Ok v ->
  coll_query c (query_for v options) = Ok results ->
  db_search embedder query options d
  = (Ok (transform_results results (default (3 # 10)%Q (opt_minRelevance options))),
     d, [EvEmbed query; EvQuery (query_for v options)]).
Proof.
  intros Hc Hv Hq. unfold db_search, embed. run.
  rewrite Hc. run. rewrite Hv. fold (query_for v options). rewrite Hq.
  reflexivity.
Qed.










Example demo_search_floor :
  map title
    (transform_results
       (Demo.answer {| queryEmbeddings := [[1%Q]]; nResults := 5; where_type := None |})
       (1 # 2))
  = ["Altdorf"].
Proof. reflexivity. Qed.

Lemma category_str_truthy c : truthy (category_str c) = true.
Proof. destruct c; reflexivity. Qed.

Lemma search_loop_In results minRelevance docs : forall i r,
  In r (search_loop results minRelevance docs i []) ->
  exists j doc, (i <= j < i + List.length docs)%nat /\
                search_entry results minRelevance j doc = Some r.
Proof.
  induction docs as [|doc rest IH]; intros i r; simpl; [tauto|].
  rewrite search_loop_app. intros Hin. apply in_app_or in Hin as [Hin|Hin].
  - destruct (search_entry results minRelevance i doc) as [r'|] eqn:E; [|destruct Hin].
    destruct Hin as [<-|[]]. exists i, doc; split; [lia | exact E].
  - destruct (IH _ _ Hin) as (j & doc' & Hj & E).
    exists j, doc'; split; [lia | exact E].
Qed.

Lemma transform_results_types results minRelevance ty :
  truthy ty = true ->
  honours_where results ty ->
  Forall (fun r => type_ r = ty) (transform_results results minRelevance).
Proof.
  intros Hty Hw. apply Forall_forall; intros r Hin.
  unfold transform_results in Hin. unfold honours_where, hit_documents in Hw.
  destruct (qr_documents results) as [docs|]; [|destruct Hin].
  destruct (search_loop_In _ _ _ _ _ Hin) as (j & doc & Hj & E).
  destruct (Hw j ltac:(simpl; lia)) as (m & Hm & Hmt).
  unfold search_entry in E.
  destruct (Qle_bool minRelevance (1 - distance_at results j)); [|discriminate].
  injection E as <-. cbn [type_].
  rewrite Hm; cbn. rewrite Hmt; cbn. now rewrite Hty.
Qed.

(** C6: a search for a category other than [any] sends the index a [where]
    clause requiring the stored type to equal that category, and, the index
    applying the clause, every result returned has that category. *)
Theorem db_search_category
    (embedder : string -> outcome embedding) (d : LoreDatabase) (c : Collection)
    (query : string) (options : LoreSearchOptions) (category : LoreCategory)
    (v : embedding) (results : QueryResponse) :
  collection d = Some c ->
  opt_category options = Some category ->
  category <> any ->
  embedder query = Ok v ->
  coll_query c (query_for v options) = Ok results ->
  honours_where results (category_str category) ->
  where_type (query_for v options) = Some (category_str category) /\
  exists rs,
    db_search embedder query options d
    = (Ok rs, d, [EvEmbed query; EvQuery (query_for v options)]) /\
    Forall (fun r => type_ r = category_str category) rs.
Proof.
  intros Hc Hcat Hany Hv Hq Hw.
  split.
  { unfold query_for; cbn. rewrite Hcat; cbn.
    destruct category; try reflexivity. congruence. }
  exists (transform_results results (default (3 # 10)%Q (opt_minRelevance options))).
  split; [apply db_search_run with (c := c); assumption|].
  apply transform_results_types; [apply category_str_truthy | exact Hw].
Qed.

Lemma demo_honours_where q ty :
  where_type q = Some ty -> honours_where (Demo.answer q) ty.
Proof.
  intros Hw i Hi. unfold hit_documents, Demo.answer in *; cbn in *.
  rewrite Hw in *; cbn in *.
  destruct (String.eqb_spec ty "location") as [Hl|Hl];
    destruct (String.eqb_spec ty "deity") as [Hd|Hd]; cbn in *;
    try (subst ty; discriminate);
    destruct (Z.to_nat (nResults q)) as [|n]; cbn in *; try lia;
    rewrite ?firstn_nil in *; cbn in *; try lia;
    (destruct i as [|i]; cbn in *; [|lia]); subst ty; eauto.
Qed.

Lemma db_search_category_witness :
  let d := db Demo.ready in
  let options :=
    {| opt_limit := Some 5; opt_category := Some location;
       opt_minRelevance := None; opt_includeSummary := None |} in
  let v := [inject_Z 12] in
  where_type (query_for v options) = Some "location" /\
  exists rs,
    db_search Demo.model "capital city" options d
    = (Ok rs, d, [EvEmbed "capital city"; EvQuery (query_for v options)]) /\
    Forall (fun r => type_ r = "location") rs.
Proof.
  intros d options v.
  refine (db_search_category Demo.model d Demo.lore "capital city" options
            location v (Demo.answer (query_for v options))
            eq_refl eq_refl _ eq_refl eq_refl _).
  - discriminate.
  - apply demo_honours_where; reflexivity.
Defined.

Example demo_search_location :
  map title
    (transform_results
       (Demo.answer {| queryEmbeddings := [[1%Q]]; nResults := 5;
                       where_type := Some "location" |})
       (3 # 10))
  = ["Altdorf"].
Proof. reflexivity. Qed.

(** ** The service: guards, exact lookup and fall-back *)

Lemma query_for_defaults v options :
  query_for v {| opt_limit := Some (default 5 (opt_limit options));
                 opt_category := Some (default any (opt_category options));
                 opt_minRelevance :=
                   Some (default (3 # 10)%Q (opt_minRelevance options));
                 opt_includeSummary := None |}
  = query_for v options.
Proof. reflexivity. Qed.

Lemma set_db_same s : set_db (db s) s = s.
Proof. destruct s; reflexivity. Qed.

(** A service whose flag is unset refuses the three queries at once: the
    error is thrown before any collaborator is called. *)
Lemma search_refused embedder query options s :
  initialized s = false ->
  search embedder query options s = (Throw NOT_INITIALIZED_SERVICE, s, []).
Proof. intros H; unfold search; run; rewrite H; reflexivity. Qed.

Lemma getByTitle_refused t s :
  initialized s = false ->
  getByTitle t s = (Throw NOT_INITIALIZED_SERVICE, s, []).
Proof. intros H; unfold getByTitle; run; rewrite H; reflexivity. Qed.

Lemma lookupEntity_refused embedder name category s :
  initialized s = false ->
  lookupEntity embedder name category s = (Throw NOT_INITIALIZED_SERVICE, s, []).
Proof.
  intros H; unfold lookupEntity, bind.
  rewrite (getByTitle_refused name s H); reflexivity.
Qed.

(** The repository's own guard is on the collection: without one, its
    queries throw before any collaborator is called. *)
Lemma db_search_refused embedder query options d :
  collection d = None ->
  db_search embedder query options d = (Throw NOT_INITIALIZED_DB, d, []).
Proof. intros H; unfold db_search, bind, this; rewrite H; reflexivity. Qed.

Lemma db_getByTitle_refused t d :
  collection d = None ->
  db_getByTitle t d = (Throw NOT_INITIALIZED_DB, d, []).
Proof. intros H; unfold db_getByTitle, bind, this; rewrite H; reflexivity. Qed.

Lemma search_run embedder s c query options v results :
  initialized s = true ->
  collection (db s) = Some c ->
  embedder query = Ok v ->
  coll_query c (query_for v options) = Ok results ->
  search embedder query options s
  = (Ok (transform_results results (default (3 # 10)%Q (opt_minRelevance options))),
     s, [EvEmbed query; EvQuery (query_for v options)]).
Proof.
  intros Hi Hc Hv Hq. unfold search, on_db, on_field, bind, this.
  rewrite Hi; cbn [negb].
  rewrite (db_search_run embedder (db s) c query _ v results Hc Hv);
    [| rewrite query_for_defaults; exact Hq].
  rewrite query_for_defaults, set_db_same. reflexivity.
Qed.

Lemma getByTitle_run s c t :
  initialized s = true ->
  collection (db s) = Some c ->
  getByTitle t s
  = (match coll_get c t with
     | Ok results => Ok (getByTitle_result results t)
     | Throw e => Throw e
     end, s, [EvGet t]).
Proof.
  intros Hi Hc. unfold getByTitle, on_db, on_field, db_getByTitle, bind, this.
  rewrite Hi; cbn [negb]. rewrite Hc. unfold call, ret.
  destruct (coll_get c t); cbn; rewrite set_db_same; reflexivity.
Qed.

Lemma getByTitle_result_found results t doc :
  at_index (gr_documents results) 0 = Some doc ->
  doc <> "" ->
  exists r, getByTitle_result results t = Some r /\
            relevance r = 1%Q /\ text r = doc.
Proof.
  intros Hdoc Hne. unfold getByTitle_result. rewrite Hdoc.
  destruct doc as [|ch doc]; [congruence|]. cbn [truthy].
  eexists; split; [reflexivity|]. split; reflexivity.
Qed.

(** C3: on a ready service [lookupEntity] first asks the collection for the
    document with exactly that title; if there is one it is returned with a
    relevance of 1 and neither the model nor the index is queried; only if
    there is none is a semantic search made, for one result, whose first hit
    is returned, or nothing when the search returns no hit. A stored
    document has a non-empty text. *)
Theorem lookupEntity_exact_then_semantic
    (embedder : string -> outcome embedding) (s : RAGService) (c : Collection)
    (name : string) (category : option LoreCategory) (found : GetResponse) :
  initialized s = true ->
  collection (db s) = Some c ->
  coll_get c name = Ok found ->
  (forall doc,
      at_index (gr_documents found) 0 = Some doc -> doc <> "" ->
      exists r,
        lookupEntity embedder name category s = (Ok (Some r), s, [EvGet name]) /\
        getByTitle name s = (Ok (Some r), s, [EvGet name]) /\
        relevance r = 1%Q /\ text r = doc)
  /\
  (getByTitle name s = (Ok None, s, [EvGet name]) ->
   forall v results,
     embedder name = Ok v ->
     coll_query c (query_for v (fallback_options category)) = Ok results ->
     nResults (query_for v (fallback_options category)) = 1 /\
     lookupEntity embedder name category s
     = (Ok (hd_error (transform_results results (3 # 10)%Q)), s,
        [EvGet name; EvEmbed name;
         EvQuery (query_for v (fallback_options category))])).
Proof.
  intros Hi Hc Hget.
  pose proof (getByTitle_run s c name Hi Hc) as Hrun. rewrite Hget in Hrun.
  split.
  - intros doc Hdoc Hne.
    destruct (getByTitle_result_found found name doc Hdoc Hne) as (r & Hr & Hrel & Htxt).
    rewrite Hr in Hrun.
    exists r. split; [|split; [exact Hrun | split; assumption]].
    unfold lookupEntity, bind. rewrite Hrun. reflexivity.
  - intros Hnone v results Hv Hq.
    split; [reflexivity|].
    unfold lookupEntity, bind. rewrite Hnone.
    fold (fallback_options category).
    rewrite (search_run embedder s c name (fallback_options category) v results Hi Hc Hv Hq).
    reflexivity.
Qed.

Lemma lookupEntity_exact_then_semantic_witness :
  (exists r,
      lookupEntity Demo.model "Sigmar" None Demo.ready
      = (Ok (Some r), Demo.ready, [EvGet "Sigmar"]) /\
      getByTitle "Sigmar" Demo.ready = (Ok (Some r), Demo.ready, [EvGet "Sigmar"]) /\
      relevance r = 1%Q /\ text r = Demo.sigmar_text)
  /\
  (let q := query_for [inject_Z 6] (fallback_options None) in
   nResults q = 1 /\
   lookupEntity Demo.model "Sigmer" None Demo.ready
   = (Ok (hd_error (transform_results (Demo.answer q) (3 # 10)%Q)), Demo.ready,
      [EvGet "Sigmer"; EvEmbed "Sigmer"; EvQuery q])).
Proof.
  split.
  - apply (proj1 (lookupEntity_exact_then_semantic Demo.model Demo.ready Demo.lore
                    "Sigmar" None (Demo.by_title "Sigmar") eq_refl eq_refl eq_refl));
      [reflexivity | discriminate].
  - apply (proj2 (lookupEntity_exact_then_semantic Demo.model Demo.ready Demo.lore
                    "Sigmer" None (Demo.by_title "Sigmer") eq_refl eq_refl eq_refl));
      reflexivity.
Defined.

Example lookup_misspelled :
  option_map title (hd_error (transform_results
     (Demo.answer (query_for [inject_Z 6] (fallback_options None))) (3 # 10)%Q))
  = Some "Altdorf".
Proof. reflexivity. Qed.

(** ** Situational context *)

Lemma join_cons_app sep x y rest :
  join sep (x :: y :: rest) = x ++ sep ++ join sep (y :: rest).
Proof. reflexivity. Qed.

Lemma join_prefix_shift entities : forall a b,
  join " " ((a ++ " " ++ b) :: entities) = a ++ " " ++ join " " (b :: entities).
Proof.
  destruct entities as [|e rest]; intros a b.
  - reflexivity.
  - rewrite (join_cons_app " " (a ++ " " ++ b) e rest), (join_cons_app " " b e rest).
    now rewrite !string_app_assoc.
Qed.

(** [[situation, ...entities].join(' ')] is the composite query of the
    specification. *)
Lemma join_composite_query entities : forall situation,
  join " " (situation :: entities) = composite_query situation entities.
Proof.
  induction entities as [|e rest IH]; intros situation; [reflexivity|].
  cbn [composite_query]. rewrite <- IH, join_prefix_shift. reflexivity.
Qed.

Example composite_query_example :
  composite_query "Players enter a temple" ["Sigmar"; "Altdorf"]
  = "Players enter a temple Sigmar Altdorf".
Proof. reflexivity. Qed.

(** C7: [getContextForSituation] makes one query, the situation followed by
    the entity names in input order with single spaces between them, asks
    the index for 5 results without a category, keeps the results of
    relevance at least 1/4 and packs them into a budget of 3000. *)
Theorem getContextForSituation_composite
    (embedder : string -> outcome embedding) (s : RAGService) (c : Collection)
    (situation : string) (entities : list string)
    (v : embedding) (results : QueryResponse) :
  initialized s = true ->
  collection (db s) = Some c ->
  embedder (composite_query situation entities) = Ok v ->
  coll_query c {| queryEmbeddings := [v]; nResults := 5; where_type := None |}
  = Ok results ->
  getContextForSituation embedder situation entities s
  = (Ok (buildContext (transform_results results (1 # 4)%Q) 3000), s,
     [EvEmbed (composite_query situation entities);
      EvQuery {| queryEmbeddings := [v]; nResults := 5; where_type := None |}]).
Proof.
  intros Hi Hc Hv Hq.
  unfold getContextForSituation, bind.
  rewrite join_composite_query. fold situation_options.
  rewrite (search_run embedder s c _ situation_options v results Hi Hc Hv Hq).
  reflexivity.
Qed.

Lemma getContextForSituation_composite_witness :
  let q := {| queryEmbeddings := [[inject_Z 37]]; nResults := 5; where_type := None |} in
  getContextForSituation Demo.model "Players enter a temple" ["Sigmar"; "Altdorf"]
    Demo.ready
  = (Ok (buildContext (transform_results (Demo.answer q) (1 # 4)%Q) 3000),
     Demo.ready,
     [EvEmbed "Players enter a temple Sigmar Altdorf"; EvQuery q]).
Proof.
  exact (getContextForSituation_composite Demo.model Demo.ready Demo.lore
           "Players enter a temple" ["Sigmar"; "Altdorf"] [inject_Z 37]
           (Demo.answer _) eq_refl eq_refl eq_refl eq_refl).
Defined.

(** ** The [maxLength] argument of the [warhammer_context] tool *)

(** The handler reads [maxLength] and passes nothing of it on: the response
    is the same whatever the caller supplies. *)
Lemma handle_warhammer_context_maxLength_unused embedder situation entities m m' s :
  handle_warhammer_context embedder
    {| arg_situation := situation; arg_entities := entities; arg_maxLength := m |} s
  = handle_warhammer_context embedder
    {| arg_situation := situation; arg_entities := entities; arg_maxLength := m' |} s.
Proof. reflexivity. Qed.

(** C4 (the code departs from it): called with [maxLength = 100] on the
    example repository, the tool returns a packed text of 180 characters,
    the one packed for the fixed budget of 3000. *)
Theorem warhammer_context_exceeds_maxLength :
  let args := {| arg_situation := "capital city"; arg_entities := None;
                 arg_maxLength := Some 100 |} in
  exists context calls,
    getContextForSituation Demo.model "capital city" [] Demo.ready
    = (Ok context, Demo.ready, calls) /\
    handle_warhammer_context Demo.model args Demo.ready
    = (Ok (formatResponse (render_context context)), Demo.ready, calls) /\
    or_2000 (arg_maxLength args) = 100 /\
    len (ctx_text context) = 180 /\
    ~ (len (ctx_text context) <= or_2000 (arg_maxLength args) + 3).
Proof.
  intros args. eexists. eexists.
  split; [vm_compute; reflexivity|].
  split; [vm_compute; reflexivity|].
  split; [reflexivity|].
  split; [vm_compute; reflexivity|].
  vm_compute. intros H; apply H; reflexivity.
Qed.

(** ** The life cycle: queries before and after initialisation *)

(** In every state of the life cycle the service's flag implies the
    repository's, which implies that the collection is there. *)
Lemma reachable_inv c s :
  reachable c s ->
  (initialized s = true -> db_initialized (db s) = true) /\
  (db_initialized (db s) = true -> collection (db s) <> None).
Proof.
  induction 1 as [|s s' Hreach [IH1 IH2] Hstep].
  - split; discriminate.
  - destruct Hstep as [s col Hi Hd Hget | s col n Hi Hd Hcol Hcnt | s Hi Hd];
      destruct s as [[cl co di] i]; cbn in *; subst.
    + split; discriminate.
    + split; [discriminate | intros _; discriminate].
    + split; [reflexivity | exact IH2].
Qed.

Lemma ready_iff_initialized c s :
  reachable c s -> isReady s = initialized s.
Proof.
  intros Hr. destruct (reachable_inv c s Hr) as [H _].
  unfold isReady, isInitialized.
  destruct (initialized s); [now rewrite H | reflexivity].
Qed.

(** [initialize], however its calls to the client settle, moves the service
    along the life cycle. *)
Lemma initialize_reachable c s :
  reachable c s -> reachable c (state_of (initialize s)).
Proof.
  intros Hr. destruct s as [[cl co di] i].
  unfold initialize, on_db, on_field, db_initialize, state_of. run.
  destruct i; [exact Hr|]. cbn.
  destruct di; cbn.
  { eapply reach_step; [exact Hr|]. now apply step_ready. }
  destruct (getOrCreateCollection cl) as [col|e] eqn:Hget; cbn; [|exact Hr].
  assert (H1 : reachable c
            {| db := {| client := cl; collection := Some col; db_initialized := false |};
               initialized := false |}).
  { eapply reach_step; [exact Hr|].
    exact (step_connect
             {| db := {| client := cl; collection := co; db_initialized := false |};
                initialized := false |} col eq_refl eq_refl Hget). }
  destruct (coll_count col) as [n|e] eqn:Hcnt; cbn; [|exact H1].
  assert (H2 : reachable c
            {| db := {| client := cl; collection := Some col; db_initialized := true |};
               initialized := false |}).
  { eapply reach_step; [exact H1|].
    exact (step_count
             {| db := {| client := cl; collection := Some col; db_initialized := false |};
                initialized := false |} col n eq_refl eq_refl eq_refl Hcnt). }
  eapply reach_step; [exact H2|].
  exact (step_ready
           {| db := {| client := cl; collection := Some col; db_initialized := true |};
              initialized := false |} eq_refl eq_refl).
Qed.

(** A successful [initialize] leaves the service's flag set. *)
Lemma initialize_ok_initialized s s' calls :
  initialize s = (Ok tt, s', calls) -> initialized s' = true.
Proof.
  destruct s as [[cl co di] i].
  unfold initialize, on_db, on_field, db_initialize. run.
  destruct i; cbn; [intros [= <- _]; reflexivity|].
  destruct di; cbn; [intros [= <- _]; reflexivity|].
  destruct (getOrCreateCollection cl) as [col|e]; cbn; [|discriminate].
  destruct (coll_count col) as [n|e]; cbn; [|discriminate].
  intros [= <- _]; reflexivity.
Qed.

(** What a query answers when it is accepted: it goes past the guards and
    calls a collaborator first, the collection for a title and the embedding
    model for a search. *)
Lemma search_first_call embedder s c query options :
  initialized s = true ->
  collection (db s) = Some c ->
  exists rest,
    calls_of (search embedder query options s) = EvEmbed query :: rest.
Proof.
  intros Hi Hc. destruct s as [[cl co di] i]; cbn in *; subst.
  unfold search, on_db, on_field, db_search, embed, calls_of. run.
  destruct (embedder query) as [v|e]; cbn; [|eexists; reflexivity].
  match goal with |- context [coll_query c ?q] => destruct (coll_query c q) end;
    cbn; eexists; reflexivity.
Qed.

Lemma lookupEntity_first_call embedder s c name category :
  initialized s = true ->
  collection (db s) = Some c ->
  exists rest,
    calls_of (lookupEntity embedder name category s) = EvGet name :: rest.
Proof.
  intros Hi Hc. unfold lookupEntity, bind, calls_of.
  rewrite (getByTitle_run s c name Hi Hc).
  destruct (coll_get c name) as [found|e]; [|eexists; reflexivity].
  destruct (getByTitle_result found name); [eexists; reflexivity|].
  cbv beta iota.
  destruct (search embedder name
              {| opt_limit := Some 1; opt_category := category;
                 opt_minRelevance := None; opt_includeSummary := None |} s)
    as [[[rs|e] s1] l1]; eexists; reflexivity.
Qed.

Lemma db_search_first_call embedder query options d c :
  collection d = Some c ->
  exists rest,
    calls_of (db_search embedder query options d) = EvEmbed query :: rest.
Proof.
  intros Hc. unfold db_search, embed, calls_of. unfold bind, this, call, ret.
  rewrite Hc.
  destruct (embedder query) as [v|e]; [|eexists; reflexivity].
  match goal with |- context [coll_query c ?q] => destruct (coll_query c q) end;
    eexists; reflexivity.
Qed.

Lemma db_getByTitle_run t d c :
  collection d = Some c ->
  db_getByTitle t d
  = (match coll_get c t with
     | Ok found => Ok (getByTitle_result found t)
     | Throw e => Throw e
     end, d, [EvGet t]).
Proof.
  intros Hc. unfold db_getByTitle. unfold bind, this, call, ret. rewrite Hc.
  destruct (coll_get c t); reflexivity.
Qed.

(** C8 (as amended): in every state of the life cycle in which the service
    is not ready, [search], [getByTitle] and [lookupEntity] of the service
    throw the not-initialised error at once, calling no collaborator and
    changing nothing; and once [initialize] has succeeded the service is
    ready and the same calls go through to the collection and the embedding
    model. The repository's own [search] and [getByTitle] test its
    collection and not its flag: they throw the repository's
    not-initialised error at once when it has no collection, and go through
    to the collaborators as soon as it has one, whether or not it is
    initialised. *)
Theorem queries_require_ready
    (embedder : string -> outcome embedding) (c : ChromaClient) (s : RAGService) :
  reachable c s ->
  (isReady s = false ->
   forall (query name : string) (options : LoreSearchOptions)
          (category : option LoreCategory),
     search embedder query options s = (Throw NOT_INITIALIZED_SERVICE, s, []) /\
     getByTitle name s = (Throw NOT_INITIALIZED_SERVICE, s, []) /\
     lookupEntity embedder name category s
     = (Throw NOT_INITIALIZED_SERVICE, s, []))
  /\
  (forall s' calls,
     initialize s = (Ok tt, s', calls) ->
     reachable c s' /\ isReady s' = true /\
     exists col,
       collection (db s') = Some col /\
       forall (query name : string) (options : LoreSearchOptions)
              (category : option LoreCategory),
         (exists rest,
             calls_of (search embedder query options s') = EvEmbed query :: rest) /\
         getByTitle name s'
         = (match coll_get col name with
            | Ok found => Ok (getByTitle_result found name)
            | Throw e => Throw e
            end, s', [EvGet name]) /\
         (exists rest,
             calls_of (lookupEntity embedder name category s') = EvGet name :: rest))
  /\
  (forall (query name : string) (options : LoreSearchOptions),
     (collection (db s) = None ->
      db_search embedder query options (db s) = (Throw NOT_INITIALIZED_DB, db s, []) /\
      db_getByTitle name (db s) = (Throw NOT_INITIALIZED_DB, db s, [])) /\
     (forall col,
        collection (db s) = Some col ->
        (exists rest,
            calls_of (db_search embedder query options (db s))
            = EvEmbed query :: rest) /\
        db_getByTitle name (db s)
        = (match coll_get col name with
           | Ok found => Ok (getByTitle_result found name)
           | Throw e => Throw e
           end, db s, [EvGet name])))
  /\
  (initialized s = true ->
   isInitialized (db s) = true /\ collection (db s) <> None).
Proof.
  intros Hr. split; [|split; [|split]].
  - intros Hnot query name options category.
    rewrite (ready_iff_initialized c s Hr) in Hnot.
    split; [now apply search_refused|].
    split; [now apply getByTitle_refused | now apply lookupEntity_refused].
  - intros s' calls Hinit.
    assert (Hr' : reachable c s').
    { pose proof (initialize_reachable c s Hr) as H.
      rewrite Hinit in H. exact H. }
    pose proof (initialize_ok_initialized s s' calls Hinit) as Hi'.
    split; [exact Hr'|].
    split; [now rewrite (ready_iff_initialized c s' Hr')|].
    destruct (reachable_inv c s' Hr') as [H1 H2].
    destruct (collection (db s')) as [col|] eqn:Hcol;
      [|exfalso; apply (H2 (H1 Hi')); reflexivity].
    exists col. split; [reflexivity|].
    intros query name options category.
    split; [now apply search_first_call with (c := col)|].
    split; [now apply getByTitle_run|].
    now apply lookupEntity_first_call with (c := col).
  - intros query name options. split.
    + intros Hnone.
      split; [now apply db_search_refused | now apply db_getByTitle_refused].
    + intros col Hcol.
      split; [now apply db_search_first_call with (c := col)
             | now apply db_getByTitle_run].
  - intros Hi. destruct (reachable_inv c s Hr) as [H1 H2].
    split; [exact (H1 Hi) | exact (H2 (H1 Hi))].
Qed.

Lemma queries_require_ready_witness :
  let fresh := new_RAGService Demo.chroma in
  (isReady fresh = false /\
   search Demo.model "capital city" no_options fresh
   = (Throw NOT_INITIALIZED_SERVICE, fresh, []) /\
   getByTitle "Sigmar" fresh = (Throw NOT_INITIALIZED_SERVICE, fresh, []) /\
   lookupEntity Demo.model "Sigmar" None fresh
   = (Throw NOT_INITIALIZED_SERVICE, fresh, []))
  /\
  (initialize fresh = (Ok tt, Demo.ready, [EvGetOrCreateCollection; EvCount]) /\
   isReady Demo.ready = true /\
   exists rest,
     calls_of (search Demo.model "capital city" no_options Demo.ready)
     = EvEmbed "capital city" :: rest)
  /\
  (collection (db fresh) = None /\
   db_search Demo.model "capital city" no_options (db fresh)
   = (Throw NOT_INITIALIZED_DB, db fresh, []) /\
   db_getByTitle "Sigmar" (db fresh) = (Throw NOT_INITIALIZED_DB, db fresh, [])).
Proof.
  intros fresh.
  pose proof (queries_require_ready Demo.model Demo.chroma fresh
                (reach_new Demo.chroma)) as (Hbefore & Hafter & Hrepo & _).
  split; [|split].
  - split; [reflexivity|].
    exact (Hbefore eq_refl "capital city" "Sigmar" no_options None).
  - destruct (Hafter Demo.ready [EvGetOrCreateCollection; EvCount] eq_refl)
      as (_ & Hready & col & _ & Hcalls).
    split; [reflexivity|]. split; [exact Hready|].
    exact (proj1 (Hcalls "capital city" "Sigmar" no_options None)).
  - split; [reflexivity|].
    exact (proj1 (Hrepo "capital city" "Sigmar" no_options) eq_refl).
Defined.

(** C8 (as stated) fails for the repository: when [initialize] obtains the
    collection and the count then fails, the pair is left not ready and the
    repository not initialised, the service refuses a search, and yet the
    repository's own [getByTitle] and [search] answer. *)
Lemma repository_guard_counterexample :
  let counting_fails :=
    {| coll_count := Throw (Error "connection refused");
       coll_query := coll_query Demo.lore;
       coll_get := coll_get Demo.lore;
       coll_add := coll_add Demo.lore |} in
  let chroma :=
    {| getOrCreateCollection := Ok counting_fails; deleteCollection := Ok tt |} in
  let s := state_of (initialize (new_RAGService chroma)) in
  result_of (initialize (new_RAGService chroma))
  = Throw (Error "connection refused") /\
  reachable chroma s /\
  isReady s = false /\
  isInitialized (db s) = false /\
  search Demo.model "capital city" no_options s
  = (Throw NOT_INITIALIZED_SERVICE, s, []) /\
  (exists r,
      db_getByTitle "Sigmar" (db s) = (Ok (Some r), db s, [EvGet "Sigmar"]) /\
      relevance r = 1%Q) /\
  (exists rs calls,
      db_search Demo.model "capital city" no_options (db s) = (Ok rs, db s, calls) /\
      map title rs = ["Altdorf"; "Sigmar"]) /\
  ~ (db_search Demo.model "capital city" no_options (db s)
     = (Throw NOT_INITIALIZED_DB, db s, [])) /\
  ~ (db_getByTitle "Sigmar" (db s) = (Throw NOT_INITIALIZED_DB, db s, [])).
Proof.
  intros counting_fails chroma s.
  split; [reflexivity|].
  split; [exact (initialize_reachable chroma _ (reach_new chroma))|].
  split; [reflexivity|]. split; [reflexivity|]. split; [reflexivity|].
  split; [eexists; split; reflexivity|].
  split; [do 2 eexists; split; reflexivity|].
  split; discriminate.
Qed.

(** ** Ingestion *)

Section IngestionFacts.

Variable JSON_parse : string -> option LexicanumEntry.
Variable Math_random : nat -> string.
Variable embedder : string -> outcome embedding.

Lemma parseEntry_malformed i line :
  JSON_parse line = None -> parseEntry JSON_parse Math_random i line = None.
Proof. intros H; unfold parseEntry; now rewrite H. Qed.

Lemma parseEntry_short i line entry :
  JSON_parse line = Some entry ->
  len (extract_text entry) < 50 ->
  parseEntry JSON_parse Math_random i line = None.
Proof.
  intros H Hlen; unfold parseEntry; rewrite H.
  destruct (Z.ltb_spec (len (extract_text entry)) 50); [reflexivity | lia].
Qed.

Lemma parseEntry_kept i line entry :
  JSON_parse line = Some entry ->
  50 <= len (extract_text entry) ->
  exists doc,
    parseEntry JSON_parse Math_random i line = Some doc /\
    doc_text doc = slice0 (extract_text entry) 3000 /\
    len (doc_text doc) = Z.min 3000 (len (extract_text entry)).
Proof.
  intros H Hlen; unfold parseEntry; rewrite H.
  destruct (Z.ltb_spec (len (extract_text entry)) 50); [lia|].
  eexists; split; [reflexivity|]; cbn [doc_text].
  split; [reflexivity | apply len_slice0; lia].
Qed.

Lemma parseEntry_ingestible i line doc :
  parseEntry JSON_parse Math_random i line = Some doc ->
  ingestible (doc_text doc).
Proof.
  unfold parseEntry, ingestible.
  destruct (JSON_parse line) as [entry|]; [|discriminate].
  destruct (Z.ltb_spec (len (extract_text entry)) 50); [discriminate|].
  intros [= <-]; cbn [doc_text]. rewrite len_slice0 by lia. lia.
Qed.

Lemma parseEntry_yields i line :
  yields_document JSON_parse line
  = match parseEntry JSON_parse Math_random i line with
    | Some _ => true
    | None => false
    end.
Proof.
  unfold yields_document, parseEntry.
  destruct (JSON_parse line) as [entry|]; [|reflexivity].
  destruct (Z.ltb_spec (len (extract_text entry)) 50) as [Hlt|Hge].
  - destruct (Z.leb_spec 50 (len (extract_text entry))); [lia | reflexivity].
  - destruct (Z.leb_spec 50 (len (extract_text entry))); [reflexivity | lia].
Qed.

Lemma stored_texts_app l1 l2 :
  stored_texts (l1 ++ l2) = (stored_texts l1 ++ stored_texts l2)%list.
Proof. unfold stored_texts; apply flat_map_app. Qed.

(** Computing the embeddings stores nothing and leaves the repository as
    it is, whether or not the model fails on the way. *)
Lemma embed_all_spec documents : forall acc (d : LoreDatabase),
  state_of (embed_all embedder documents acc d) = d /\
  stored_texts (calls_of (embed_all embedder documents acc d)) = [].
Proof.
  induction documents as [|doc rest IH]; intros acc d; cbn; [split; reflexivity|].
  unfold bind, embed, call.
  destruct (embedder (doc_text doc)) as [e|err]; [|split; reflexivity].
  destruct (IH (acc ++ [e])%list d) as [Hs Hl].
  destruct (embed_all embedder rest (acc ++ [e])%list d) as [[o s1] l1].
  unfold state_of, calls_of in *; cbn in *. split; assumption.
Qed.

(** [addDocuments] hands the collection the texts of the batch, in one
    request, or nothing. *)
Lemma addDocuments_spec pending d :
  state_of (addDocuments embedder pending d) = d /\
  (stored_texts (calls_of (addDocuments embedder pending d)) = [] \/
   stored_texts (calls_of (addDocuments embedder pending d))
   = map doc_text pending).
Proof.
  unfold addDocuments, bind, this.
  destruct (collection d) as [c|]; [|split; [reflexivity | left; reflexivity]].
  destruct pending as [|doc rest]; [split; [reflexivity | left; reflexivity]|].
  destruct (embed_all_spec (doc :: rest) [] d) as [Hs Hl].
  destruct (embed_all embedder (doc :: rest) [] d) as [[[embs|err] s1] l1];
    unfold state_of, calls_of in *; cbn [fst snd] in *; subst s1.
  - unfold call. cbv beta iota zeta. cbn [fst snd]. split; [reflexivity|].
    right. rewrite !stored_texts_app, Hl. cbn. now rewrite app_nil_r.
  - split; [reflexivity | left; exact Hl].
Qed.

(** Indexing a batch never throws: a failure is caught and counted. *)
Lemma index_batch_spec v pending d :
  exists indexed errs calls,
    index_batch embedder v pending d = (Ok (indexed, errs), d, calls) /\
    (stored_texts calls = [] \/ stored_texts calls = map doc_text pending) /\
    errors v <= errs <= errors v + 1.
Proof.
  unfold index_batch, try_catch, bind.
  destruct (addDocuments_spec pending d) as [Hs Hl].
  destruct (addDocuments embedder pending d) as [[[[]|err] s1] l1];
    unfold state_of, calls_of in *; cbn [fst snd] in *; subst s1; cbn.
  - do 3 eexists; split; [reflexivity|]. rewrite app_nil_r. split; [exact Hl | lia].
  - do 3 eexists; split; [reflexivity|]. rewrite app_nil_r. split; [exact Hl | lia].
Qed.

(** The loop never throws, counts every entry, and only ever stores texts
    of 50 to 3000 characters. *)
Lemma ingest_loop_spec entries : forall i v d,
  Forall ingestible (map doc_text (batch v)) ->
  exists v' calls,
    ingest_loop JSON_parse Math_random embedder entries i v d = (Ok v', d, calls) /\
    totalProcessed v' = totalProcessed v + Z.of_nat (List.length entries) /\
    Forall ingestible (map doc_text (batch v')) /\
    Forall ingestible (stored_texts calls).
Proof.
  induction entries as [|entry rest IH]; intros i v d Hb.
  - exists v, []; cbn. repeat split; [lia | exact Hb | constructor].
  - cbn [ingest_loop].
    set (pending := match parseEntry JSON_parse Math_random i (trim entry) with
                    | Some doc => (batch v ++ [doc])%list
                    | None => batch v
                    end).
    assert (Hp : Forall ingestible (map doc_text pending)).
    { subst pending.
      destruct (parseEntry JSON_parse Math_random i (trim entry)) as [doc|] eqn:E;
        [|exact Hb].
      rewrite map_app. apply Forall_app; split; [exact Hb|].
      constructor; [|constructor]. now apply parseEntry_ingestible in E. }
    destruct (Z.of_nat (List.length pending) >=? BATCH_SIZE).
    + destruct (index_batch_spec v pending d) as (indexed & errs & l1 & Hrun & Hst & _).
      unfold bind. rewrite Hrun.
      edestruct (IH (S i) {| batch := []; totalProcessed := totalProcessed v + 1;
                             totalIndexed := indexed; errors := errs |} d)
        as (v' & l2 & Hrest & Htot & Hb' & Hst'); [constructor|].
      rewrite Hrest. exists v', (l1 ++ l2)%list.
      split; [reflexivity|]. cbn in Htot.
      split; [rewrite Htot; cbn [List.length]; lia|].
      split; [exact Hb'|].
      rewrite stored_texts_app. apply Forall_app; split; [|exact Hst'].
      destruct Hst as [-> | ->]; [constructor | exact Hp].
    + edestruct (IH (S i) {| batch := pending; totalProcessed := totalProcessed v + 1;
                             totalIndexed := totalIndexed v; errors := errors v |} d)
        as (v' & l2 & Hrest & Htot & Hb' & Hst'); [exact Hp|].
      rewrite Hrest. exists v', l2.
      split; [reflexivity|]. cbn in Htot.
      split; [rewrite Htot; cbn [List.length]; lia|].
      split; assumption.
Qed.

End IngestionFacts.

Section IngestionSucceeds.

Variable JSON_parse : string -> option LexicanumEntry.
Variable Math_random : nat -> string.
Variable embedder : string -> outcome embedding.
Variable d : LoreDatabase.
Variable c : Collection.

Hypothesis connected : collection d = Some c.
Hypothesis model_answers : forall t, exists e, embedder t = Ok e.
Hypothesis add_succeeds : forall r, coll_add c r = Ok tt.

Lemma embed_all_ok documents : forall acc,
  exists embs calls,
    embed_all embedder documents acc d = (Ok embs, d, calls).
Proof.
  induction documents as [|doc rest IH]; intros acc; cbn.
  - do 2 eexists; reflexivity.
  - unfold bind, embed, call.
    destruct (model_answers (doc_text doc)) as [e ->].
    destruct (IH (acc ++ [e])%list) as (embs & l & ->).
    do 2 eexists; reflexivity.
Qed.

Lemma addDocuments_ok pending :
  exists calls, addDocuments embedder pending d = (Ok tt, d, calls).
Proof.
  unfold addDocuments, bind, this. rewrite connected.
  destruct pending as [|doc rest]; [eexists; reflexivity|].
  destruct (embed_all_ok (doc :: rest) []) as (embs & l & ->).
  unfold call. rewrite add_succeeds. eexists; reflexivity.
Qed.

Lemma index_batch_ok v pending :
  exists calls,
    index_batch embedder v pending d
    = (Ok (totalIndexed v + Z.of_nat (List.length pending), errors v), d, calls).
Proof.
  unfold index_batch, try_catch, bind.
  destruct (addDocuments_ok pending) as (l & ->).
  eexists; reflexivity.
Qed.

(** With every batch written, no error is counted, whatever the number of
    entries that gave no document, and every document is indexed or still
    pending. *)
Lemma ingest_loop_ok entries : forall i v,
  exists v' calls,
    ingest_loop JSON_parse Math_random embedder entries i v d = (Ok v', d, calls) /\
    errors v' = errors v /\
    totalIndexed v' + Z.of_nat (List.length (batch v'))
    = totalIndexed v + Z.of_nat (List.length (batch v))
      + Z.of_nat (List.length (filter (yields_document JSON_parse) (map trim entries))).
Proof.
  induction entries as [|entry rest IH]; intros i v.
  - exists v, []; cbn. repeat split; lia.
  - cbn [ingest_loop map filter].
    rewrite (parseEntry_yields JSON_parse Math_random i (trim entry)).
    set (pending := match parseEntry JSON_parse Math_random i (trim entry) with
                    | Some doc => (batch v ++ [doc])%list
                    | None => batch v
                    end).
    assert (Hp : Z.of_nat (List.length pending)
                 = Z.of_nat (List.length (batch v))
                   + (if match parseEntry JSON_parse Math_random i (trim entry) with
                         | Some _ => true | None => false end then 1 else 0)).
    { subst pending.
      destruct (parseEntry JSON_parse Math_random i (trim entry));
        [rewrite List.length_app; cbn; lia | lia]. }
    destruct (Z.of_nat (List.length pending) >=? BATCH_SIZE).
    + destruct (index_batch_ok v pending) as (l1 & Hrun).
      unfold bind. rewrite Hrun.
      destruct (IH (S i) {| batch := []; totalProcessed := totalProcessed v + 1;
                            totalIndexed := totalIndexed v + Z.of_nat (List.length pending);
                            errors := errors v |})
        as (v' & l2 & -> & Herr & Hidx).
      exists v', (l1 ++ l2)%list. split; [reflexivity|]. cbn in Herr, Hidx.
      split; [exact Herr|].
      destruct (parseEntry JSON_parse Math_random i (trim entry)); cbn [List.length]; lia.
    + destruct (IH (S i) {| batch := pending; totalProcessed := totalProcessed v + 1;
                            totalIndexed := totalIndexed v; errors := errors v |})
        as (v' & l2 & -> & Herr & Hidx).
      exists v', l2. split; [reflexivity|]. cbn in Herr, Hidx.
      split; [exact Herr|].
      destruct (parseEntry JSON_parse Math_random i (trim entry)); cbn [List.length]; lia.
Qed.

Lemma ingest_entries_ok fileParts :
  exists v calls,
    ingest_entries JSON_parse Math_random embedder fileParts d = (Ok v, d, calls) /\
    errors v = 0 /\
    totalIndexed v
    = Z.of_nat (List.length (filter (yields_document JSON_parse)
                               (map trim (entries_of fileParts)))).
Proof.
  unfold ingest_entries, bind. fold (entries_of fileParts).
  destruct (ingest_loop_ok (entries_of fileParts) 0%nat
              {| batch := []; totalProcessed := 0; totalIndexed := 0; errors := 0 |})
    as (v & l & -> & Herr & Hidx).
  cbn in Herr, Hidx.
  destruct (Z.gtb_spec (Z.of_nat (List.length (batch v))) 0) as [Hpos|Hzero].
  - destruct (index_batch_ok v (batch v)) as (l1 & ->).
    do 2 eexists; split; [reflexivity|]. cbn. split; lia.
  - unfold ret. do 2 eexists; split; [reflexivity|]. split; lia.
Qed.

End IngestionSucceeds.

Lemma ingest_entries_total JSON_parse Math_random embedder fileParts d :
  exists v calls,
    ingest_entries JSON_parse Math_random embedder fileParts d = (Ok v, d, calls) /\
    totalProcessed v = Z.of_nat (List.length (entries_of fileParts)) /\
    Forall ingestible (stored_texts calls).
Proof.
  unfold ingest_entries, bind. fold (entries_of fileParts).
  destruct (ingest_loop_spec JSON_parse Math_random embedder (entries_of fileParts) 0%nat
              {| batch := []; totalProcessed := 0; totalIndexed := 0; errors := 0 |} d)
    as (v & l & -> & Htot & Hb & Hst); [constructor|].
  cbn in Htot.
  destruct (Z.of_nat (List.length (batch v)) >? 0).
  - destruct (index_batch_spec embedder v (batch v) d)
      as (indexed & errs & l1 & -> & Hst1 & _).
    do 2 eexists; split; [reflexivity|]. cbn [totalProcessed].
    split; [lia|].
    rewrite app_nil_r, stored_texts_app. apply Forall_app; split; [exact Hst|].
    destruct Hst1 as [-> | ->]; [constructor | exact Hb].
  - unfold ret. do 2 eexists; split; [reflexivity|].
    rewrite app_nil_r. split; [lia | exact Hst].
Qed.

(** C9 (as amended): a record with fewer than 50 characters of extractable
    text gives no document; a record with more keeps its first 3000
    characters; a malformed record gives no document either; the run
    processes every entry and never throws, only texts of 50 to 3000
    characters reach the collection; and no error is counted for the records
    left out: when every batch is written the error count is 0 and the
    documents indexed are those of the records that gave one. *)
Theorem ingestion_filters_and_survives
    (JSON_parse : string -> option LexicanumEntry) (Math_random : nat -> string)
    (embedder : string -> outcome embedding) :
  (forall i line,
      JSON_parse line = None ->
      parseEntry JSON_parse Math_random i line = None)
  /\ (forall i line entry,
        JSON_parse line = Some entry ->
        len (extract_text entry) < 50 ->
        parseEntry JSON_parse Math_random i line = None)
  /\ (forall i line entry,
        JSON_parse line = Some entry ->
        50 <= len (extract_text entry) ->
        exists doc,
          parseEntry JSON_parse Math_random i line = Some doc /\
          doc_text doc = slice0 (extract_text entry) 3000 /\
          len (doc_text doc) = Z.min 3000 (len (extract_text entry)))
  /\ (forall fileParts d,
        exists v calls,
          ingest_entries JSON_parse Math_random embedder fileParts d
          = (Ok v, d, calls) /\
          totalProcessed v = Z.of_nat (List.length (entries_of fileParts)) /\
          Forall ingestible (stored_texts calls))
  /\ (forall fileParts d c,
        collection d = Some c ->
        (forall t, exists e, embedder t = Ok e) ->
        (forall r, coll_add c r = Ok tt) ->
        exists v calls,
          ingest_entries JSON_parse Math_random embedder fileParts d
          = (Ok v, d, calls) /\
          errors v = 0 /\
          totalIndexed v
          = Z.of_nat (List.length (filter (yields_document JSON_parse)
                                     (map trim (entries_of fileParts))))).
Proof.
  split; [apply parseEntry_malformed|].
  split; [apply parseEntry_short|].
  split; [apply parseEntry_kept|].
  split; [apply ingest_entries_total|].
  intros fileParts d c Hc Hm Ha. now apply ingest_entries_ok with (c := c).
Qed.

Lemma ingestion_filters_and_survives_witness :
  let fileParts := ["long"; " short "; "{bad"; "  "] in
  exists v calls,
    ingest_entries DemoIngest.parse DemoIngest.random Demo.model fileParts
      (db Demo.ready)
    = (Ok v, db Demo.ready, calls) /\
    errors v = 0 /\
    totalIndexed v
    = Z.of_nat (List.length (filter (yields_document DemoIngest.parse)
                               (map trim (entries_of fileParts)))).
Proof.
  intros fileParts.
  apply (proj2 (proj2 (proj2 (proj2
           (ingestion_filters_and_survives DemoIngest.parse DemoIngest.random
              Demo.model)))) fileParts (db Demo.ready) Demo.lore eq_refl).
  - intros t; eexists; reflexivity.
  - intros r; reflexivity.
Defined.

Example ingest_demo_run :
  let r := ingest_entries DemoIngest.parse DemoIngest.random Demo.model
             ["long"; " short "; "{bad"; "  "] (db Demo.ready) in
  option_map (fun v => (totalProcessed v, totalIndexed v, errors v))
    (match result_of r with Ok v => Some v | Throw _ => None end)
  = Some (3, 1, 0)
  /\ map len (stored_texts (calls_of r)) = [3000].
Proof. split; vm_compute; reflexivity. Qed.

(** C9 (as stated) fails: a run over one malformed record ends with the
    record processed, nothing indexed and an error count of 0. *)
Lemma ingestion_malformed_counterexample :
  DemoIngest.parse "{bad" = None /\
  exists v calls,
    ingest_entries DemoIngest.parse DemoIngest.random Demo.model ["{bad"]
      (db Demo.ready)
    = (Ok v, db Demo.ready, calls) /\
    totalProcessed v = 1 /\ totalIndexed v = 0 /\ errors v = 0 /\
    ~ (1 <= errors v).
Proof.
  split; [reflexivity|].
  do 2 eexists. split; [vm_compute; reflexivity|].
  cbn. repeat split. lia.
Qed.

(** * Further properties *)

(** ** The shape of a packed context *)

(** X1: the text of a context of a non-empty input is the header, then the
    entries of a prefix of the results, whole and in input order, then at
    most one truncated entry, that of the first result that does not fit,
    present exactly when more than 200 characters are left after a reserve
    of 50; the sources are the titles of these entries, and what is packed
    whole stays within the budget. *)
Theorem buildContext_shape (r0 : LoreResult) (rest : list LoreResult) (maxLength : Z) :
  exists pre post,
    r0 :: rest = (pre ++ post)%list /\
    (pre <> [] -> len (HEADER ++ entries_text pre) <= maxLength) /\
    let body := HEADER ++ entries_text pre in
    let available := maxLength - len body - 50 in
    let context := buildContext (r0 :: rest) maxLength in
    (post = [] /\
     ctx_text context = body /\ sources context = map title pre)
    \/ (exists r post',
          post = r :: post' /\
          len body + len (format_entry r) > maxLength /\
          available <= 200 /\
          ctx_text context = body /\ sources context = map title pre)
    \/ (exists r post',
          post = r :: post' /\
          len body + len (format_entry r) > maxLength /\
          200 < available /\
          ctx_text context = body ++ format_truncated r available /\
          sources context = (map title pre ++ [title r])%list).
Proof.
  destruct (buildContext_loop_shape (r0 :: rest) maxLength HEADER (len HEADER) []
              eq_refl) as (pre & post & Hres & Hlen & Hshape).
  exists pre, post. split; [exact Hres|]. split; [exact Hlen|].
  rewrite buildContext_unfold. cbv zeta in Hshape |- *. cbn [ctx_text sources].
  destruct Hshape as [[Hp H]|[(r & p' & Hp & Hf & Ha & H)|(r & p' & Hp & Hf & Ha & H)]].
  - left. rewrite H. repeat split; assumption.
  - right; left. exists r, p'. rewrite H. repeat split; assumption.
  - right; right. exists r, p'. rewrite H. repeat split; assumption.
Qed.

Lemma len_entries_text_nonneg results : 0 <= len (entries_text results).
Proof. apply len_nonneg. Qed.

Lemma buildContext_loop_all_fit results : forall maxLength contextText currentLength srcs,
  currentLength = len contextText ->
  len contextText + len (entries_text results) <= maxLength ->
  buildContext_loop results maxLength contextText currentLength srcs
  = (contextText ++ entries_text results, (srcs ++ map title results)%list).
Proof.
  induction results as [|r rs IH]; intros maxLength ct cl srcs Hcl Hfit.
  - cbn. now rewrite string_app_nil_r, app_nil_r.
  - cbn [buildContext_loop entries_text fold_right map]. fold (entries_text rs).
    cbn [entries_text fold_right] in Hfit. fold (entries_text rs) in Hfit.
    rewrite len_app in Hfit. pose proof (len_entries_text_nonneg rs). subst cl.
    destruct (Z.gtb_spec (len ct + len (format_entry r)) maxLength); [lia|].
    rewrite IH; [| now rewrite len_app | rewrite len_app; lia].
    rewrite string_app_assoc, <- List.app_assoc. reflexivity.
Qed.

(** X2: when the header and all the entries together fit the budget, every
    result is packed whole and in order, every title is a source and nothing
    is truncated. *)
Theorem buildContext_all_fit (results : list LoreResult) (maxLength : Z) :
  results <> [] ->
  len HEADER + len (entries_text results) <= maxLength ->
  buildContext results maxLength
  = {| ctx_text := HEADER ++ entries_text results;
       sourceCount := Z.of_nat (List.length results);
       sources := map title results |}.
Proof.
  intros Hne Hfit. destruct results as [|r rs]; [congruence|].
  rewrite buildContext_unfold.
  rewrite (buildContext_loop_all_fit (r :: rs) maxLength HEADER (len HEADER) []
             eq_refl Hfit).
  cbv zeta; cbn [fst snd app]. now rewrite length_map.
Qed.

Lemma buildContext_all_fit_witness :
  let results := [sample "Altdorf" "capital"; sample "Sigmar" "founder"] in
  results <> [] /\
  len HEADER + len (entries_text results) <= 2000 /\
  buildContext results 2000
  = {| ctx_text := HEADER ++ entries_text results;
       sourceCount := 2;
       sources := ["Altdorf"; "Sigmar"] |}.
Proof.
  intros results.
  assert (Hne : results <> []) by discriminate.
  assert (Hfit : len HEADER + len (entries_text results) <= 2000)
    by (vm_compute; discriminate).
  split; [exact Hne|]. split; [exact Hfit|].
  exact (buildContext_all_fit results 2000 Hne Hfit).
Defined.

(** ** Initialising twice, and failing to initialise *)

Lemma initialize_noop s :
  initialized s = true -> initialize s = (Ok tt, s, []).
Proof. intros H; unfold initialize, bind, this; rewrite H; reflexivity. Qed.

(** X3: [initialize] is idempotent: once it has succeeded, calling it again
    succeeds without calling the client or the collection and leaves the
    service as it is. *)
Theorem initialize_idempotent (s s' : RAGService) (calls : list extcall) :
  initialize s = (Ok tt, s', calls) ->
  initialize s' = (Ok tt, s', []).
Proof.
  intros H. apply initialize_noop. exact (initialize_ok_initialized s s' calls H).
Qed.

Lemma initialize_idempotent_witness :
  initialize (new_RAGService Demo.chroma)
  = (Ok tt, Demo.ready, [EvGetOrCreateCollection; EvCount])
  /\ initialize Demo.ready = (Ok tt, Demo.ready, []).
Proof.
  split; [reflexivity|].
  exact (initialize_idempotent (new_RAGService Demo.chroma) Demo.ready
           [EvGetOrCreateCollection; EvCount] eq_refl).
Defined.

(** X4: when [initialize] throws, the error is the one the client threw
    obtaining the collection or the collection threw counting; the service
    is left neither initialised nor ready, so that it goes on refusing
    queries, and only a collection obtained before the failure is kept. *)
Theorem initialize_failure (embedder : string -> outcome embedding)
    (s s' : RAGService) (e : error) (calls : list extcall) :
  initialize s = (Throw e, s', calls) ->
  initialized s' = false /\
  isReady s' = false /\
  db_initialized (db s') = false /\
  ((getOrCreateCollection (client (db s)) = Throw e /\
    s' = s /\ calls = [EvGetOrCreateCollection])
   \/ (exists c,
         getOrCreateCollection (client (db s)) = Ok c /\
         coll_count c = Throw e /\
         s' = set_db (set_collection (Some c) (db s)) s /\
         calls = [EvGetOrCreateCollection; EvCount])) /\
  (forall query options,
      search embedder query options s' = (Throw NOT_INITIALIZED_SERVICE, s', [])).
Proof.
  intros H.
  assert (Hmain :
    initialized s' = false /\ db_initialized (db s') = false /\
    ((getOrCreateCollection (client (db s)) = Throw e /\
      s' = s /\ calls = [EvGetOrCreateCollection])
     \/ (exists c,
           getOrCreateCollection (client (db s)) = Ok c /\
           coll_count c = Throw e /\
           s' = set_db (set_collection (Some c) (db s)) s /\
           calls = [EvGetOrCreateCollection; EvCount]))).
  { destruct s as [[cl co di] i].
    unfold initialize, on_db, on_field, db_initialize in H. revert H. run.
    destruct i; cbn; [discriminate|].
    destruct di; cbn; [discriminate|].
    destruct (getOrCreateCollection cl) as [col|e1] eqn:Hget; cbn.
    - destruct (coll_count col) as [n|e2] eqn:Hcnt; cbn; [discriminate|].
      intros [= <- <- <-]. cbn. repeat split.
      right. exists col. repeat split; assumption.
    - intros [= <- <- <-]. cbn. repeat split. left. repeat split. }
  destruct Hmain as (Hi & Hd & Hcases).
  split; [exact Hi|].
  split; [unfold isReady; now rewrite Hi|].
  split; [exact Hd|].
  split; [exact Hcases|].
  intros query options. now apply search_refused.
Qed.

Lemma initialize_failure_witness :
  let broken :=
    {| coll_count := Throw (Error "connection refused");
       coll_query := coll_query Demo.lore;
       coll_get := coll_get Demo.lore;
       coll_add := coll_add Demo.lore |} in
  let s := new_RAGService
             {| getOrCreateCollection := Ok broken; deleteCollection := Ok tt |} in
  let s' := set_db (set_collection (Some broken) (db s)) s in
  initialize s
  = (Throw (Error "connection refused"), s', [EvGetOrCreateCollection; EvCount])
  /\ isReady s' = false
  /\ search Demo.model "capital city" no_options s'
     = (Throw NOT_INITIALIZED_SERVICE, s', []).
Proof.
  intros broken s s'.
  assert (H : initialize s
              = (Throw (Error "connection refused"), s',
                 [EvGetOrCreateCollection; EvCount])) by reflexivity.
  destruct (initialize_failure Demo.model s s' _ _ H) as (_ & Hr & _ & _ & Hs).
  split; [exact H|]. split; [exact Hr|]. apply Hs.
Defined.

(** ** Clearing the repository *)

(** X5: [clear] does nothing, and calls nothing, on a repository without a
    collection; otherwise it deletes the collection and obtains it anew, and
    only when both calls succeed is the collection replaced; the
    initialisation flag and the client are never changed. *)
Theorem db_clear_effect (d : LoreDatabase) :
  db_initialized (state_of (db_clear d)) = db_initialized d /\
  client (state_of (db_clear d)) = client d /\
  (collection d = None -> db_clear d = (Ok tt, d, [])) /\
  (forall old,
      collection d = Some old ->
      match deleteCollection (client d), getOrCreateCollection (client d) with
      | Throw e, _ => db_clear d = (Throw e, d, [EvDeleteCollection])
      | Ok _, Throw e =>
          db_clear d = (Throw e, d, [EvDeleteCollection; EvGetOrCreateCollection])
      | Ok _, Ok c =>
          db_clear d
          = (Ok tt, set_collection (Some c) d,
             [EvDeleteCollection; EvGetOrCreateCollection])
      end).
Proof.
  destruct d as [cl co di]. unfold db_clear, state_of. run.
  destruct co as [old|]; cbn.
  - destruct (deleteCollection cl) as [[]|e1]; cbn;
      [destruct (getOrCreateCollection cl) as [c|e2]; cbn|];
      (repeat split; try discriminate; intros ? [= <-]; reflexivity).
  - repeat split; intros; discriminate.
Qed.

(** ** Writing a batch *)

Section AddDocuments.

Variable embedder : string -> outcome embedding.

(** The loop over the documents as long as the model answers: one call per
    document, in order, each embedding appended. *)
Lemma embed_all_answers documents : forall embs acc (d : LoreDatabase),
  Forall2 (fun doc e => embedder (doc_text doc) = Ok e) documents embs ->
  embed_all embedder documents acc d
  = (Ok (acc ++ embs)%list, d, map (fun doc => EvEmbed (doc_text doc)) documents).
Proof.
  induction documents as [|doc rest IH]; intros embs acc d H;
    inversion H as [|? e ? embs' He Hrest]; subst; cbn.
  - now rewrite app_nil_r.
  - unfold bind, embed, call. rewrite He.
    rewrite (IH embs' (acc ++ [e])%list d Hrest).
    now rewrite <- List.app_assoc.
Qed.

(** The loop stops at the first document the model fails on. *)
Lemma embed_all_fails before : forall doc after e embs acc (d : LoreDatabase),
  Forall2 (fun doc e => embedder (doc_text doc) = Ok e) before embs ->
  embedder (doc_text doc) = Throw e ->
  embed_all embedder (before ++ doc :: after) acc d
  = (Throw e, d,
     map (fun doc => EvEmbed (doc_text doc)) (before ++ [doc])).
Proof.
  induction before as [|b rest IH]; intros doc after e embs acc d H Hfail;
    inversion H as [|? e0 ? embs' He Hrest]; subst; cbn.
  - unfold bind, embed, call. now rewrite Hfail.
  - unfold bind, embed, call. rewrite He.
    now rewrite (IH doc after e embs' (acc ++ [e0])%list d Hrest Hfail).
Qed.

(** X6: for a batch that is not empty, on a repository with its collection,
    [addDocuments] asks the model for one embedding per document, in the
    order of the batch, and then makes a single [add] whose four arrays run
    in that same order and have the length of the batch; it returns what
    that [add] returns. *)
Theorem addDocuments_single_add (d : LoreDatabase) (c : Collection)
    (documents : list LoreDocument) (embs : list embedding) :
  collection d = Some c ->
  documents <> [] ->
  Forall2 (fun doc e => embedder (doc_text doc) = Ok e) documents embs ->
  let request := add_request_for documents embs in
  addDocuments embedder documents d
  = (coll_add c request, d,
     (map (fun doc => EvEmbed (doc_text doc)) documents ++ [EvAdd request])%list)
  /\ List.length (add_ids request) = List.length documents
  /\ List.length (add_embeddings request) = List.length documents
  /\ List.length (add_documents request) = List.length documents
  /\ List.length (add_metadatas request) = List.length documents.
Proof.
  intros Hc Hne Hemb request. split.
  - unfold addDocuments, bind, this. rewrite Hc.
    destruct documents as [|doc rest]; [congruence|].
    rewrite (embed_all_answers (doc :: rest) embs [] d Hemb).
    cbn [app]. unfold call. fold (add_request_for (doc :: rest) embs).
    fold request. destruct (coll_add c request); reflexivity.
  - subst request; cbn. rewrite !length_map.
    repeat split. symmetry. exact (Forall2_length Hemb).
Qed.

(** X7: [addDocuments] writes nothing when it cannot write the whole batch:
    if the model fails on a document, the error is thrown after the calls
    for the documents up to that one, the later documents are not embedded
    and [add] is not called; and a repository without collection throws
    before any call, as an empty batch returns before any. *)
Theorem addDocuments_all_or_nothing (d : LoreDatabase)
    (before after : list LoreDocument) (doc : LoreDocument)
    (embs : list embedding) (e : error) :
  (collection d = None ->
   addDocuments embedder (before ++ doc :: after) d
   = (Throw NOT_INITIALIZED_DB, d, [])) /\
  (collection d <> None -> addDocuments embedder [] d = (Ok tt, d, [])) /\
  (collection d <> None ->
   Forall2 (fun doc e => embedder (doc_text doc) = Ok e) before embs ->
   embedder (doc_text doc) = Throw e ->
   addDocuments embedder (before ++ doc :: after) d
   = (Throw e, d, map (fun doc => EvEmbed (doc_text doc)) (before ++ [doc]))
   /\ add_requests (calls_of (addDocuments embedder (before ++ doc :: after) d))
      = []).
Proof.
  split; [|split].
  - intros Hc. unfold addDocuments, bind, this. now rewrite Hc.
  - intros Hc. unfold addDocuments, bind, this.
    destruct (collection d); [reflexivity | congruence].
  - intros Hc Hemb Hfail.
    assert (Hrun : addDocuments embedder (before ++ doc :: after) d
                   = (Throw e, d,
                      map (fun doc => EvEmbed (doc_text doc)) (before ++ [doc]))).
    { unfold addDocuments, bind, this.
      destruct (collection d) as [c|]; [|congruence].
      destruct (before ++ doc :: after)%list eqn:E;
        [destruct before; discriminate|]. rewrite <- E.
      now rewrite (embed_all_fails before doc after e embs [] d Hemb Hfail). }
    split; [exact Hrun|]. rewrite Hrun. unfold calls_of; cbn [snd].
    clear. unfold add_requests. induction (before ++ [doc])%list as [|x l IH];
      [reflexivity | exact IH].
Qed.

End AddDocuments.

Lemma addDocuments_single_add_witness :
  let d1 := {| doc_id := "e1"; doc_text := Demo.altdorf_text;
               doc_metadata := {| md_title := "Altdorf"; md_type := "location";
                                  md_aliases := None; md_tags := None;
                                  md_url := None |} |} in
  let d2 := {| doc_id := "e2"; doc_text := Demo.sigmar_text;
               doc_metadata := {| md_title := "Sigmar"; md_type := "deity";
                                  md_aliases := Some ["Heldenhammer"];
                                  md_tags := None; md_url := None |} |} in
  let request := add_request_for [d1; d2] [[61%Q]; [64%Q]] in
  addDocuments Demo.model [d1; d2] (db Demo.ready)
  = (Ok tt, db Demo.ready,
     [EvEmbed Demo.altdorf_text; EvEmbed Demo.sigmar_text; EvAdd request]).
Proof.
  intros d1 d2 request.
  refine (proj1 (addDocuments_single_add Demo.model (db Demo.ready) Demo.lore
                   [d1; d2] [[61%Q]; [64%Q]] eq_refl _ _)).
  - discriminate.
  - repeat constructor.
Defined.

Lemma addDocuments_all_or_nothing_witness :
  let failing := fun t => if String.eqb t "bad" then Throw (Error "model failed")
                          else Demo.model t in
  let doc := fun t => {| doc_id := t; doc_text := t;
                         doc_metadata := {| md_title := t; md_type := "general";
                                            md_aliases := None; md_tags := None;
                                            md_url := None |} |} in
  addDocuments failing [doc "good"; doc "bad"; doc "later"] (db Demo.ready)
  = (Throw (Error "model failed"), db Demo.ready, [EvEmbed "good"; EvEmbed "bad"])
  /\ add_requests
       (calls_of (addDocuments failing [doc "good"; doc "bad"; doc "later"]
                    (db Demo.ready)))
     = [].
Proof.
  intros failing doc.
  refine (proj2 (proj2 (addDocuments_all_or_nothing failing (db Demo.ready)
                          [doc "good"] [doc "later"] (doc "bad") [[4%Q]]
                          (Error "model failed"))) _ _ _).
  - discriminate.
  - repeat constructor.
  - reflexivity.
Defined.

(** ** Raising the relevance floor *)

Lemma search_entry_floor results lo hi i doc :
  (lo <= hi)%Q ->
  search_entry results hi i doc
  = match search_entry results lo i doc with
    | Some r => if Qle_bool hi (relevance r) then Some r else None
    | None => None
    end.
Proof.
  intros Hle. unfold search_entry.
  destruct (Qle_bool lo (1 - distance_at results i)) eqn:Elo; cbn [relevance].
  - destruct (Qle_bool hi (1 - distance_at results i)); reflexivity.
  - destruct (Qle_bool hi (1 - distance_at results i)) eqn:Ehi; [|reflexivity].
    apply Qle_bool_iff in Ehi.
    assert (H : Qle_bool lo (1 - distance_at results i) = true)
      by (apply Qle_bool_iff; eapply Qle_trans; eassumption).
    congruence.
Qed.

Lemma search_loop_floor results lo hi docs : forall i,
  (lo <= hi)%Q ->
  search_loop results hi docs i []
  = filter (fun r => Qle_bool hi (relevance r))
      (search_loop results lo docs i []).
Proof.
  induction docs as [|doc rest IH]; intros i Hle; cbn [search_loop]; [reflexivity|].
  rewrite (search_loop_app results hi), (search_loop_app results lo).
  rewrite filter_app, <- IH by exact Hle.
  rewrite (search_entry_floor results lo hi i doc Hle).
  destruct (search_entry results lo i doc) as [r|]; cbn; [|reflexivity].
  destruct (Qle_bool hi (relevance r)); reflexivity.
Qed.

(** X8: the results for a higher relevance floor are those for a lower one
    with the results under the higher floor removed, order kept: filtering
    the results of a search afterwards and searching with the higher floor
    give the same list. There are never more results than documents in the
    answer of the index. *)
Theorem transform_results_floor_monotone (results : QueryResponse) (lo hi : Q) :
  (lo <= hi)%Q ->
  transform_results results hi
  = filter (fun r => Qle_bool hi (relevance r)) (transform_results results lo)
  /\ (List.length (transform_results results hi)
      <= List.length (transform_results results lo)
      <= List.length (hit_documents results))%nat.
Proof.
  intros Hle.
  assert (Heq : transform_results results hi
                = filter (fun r => Qle_bool hi (relevance r))
                    (transform_results results lo)).
  { unfold transform_results. destruct (qr_documents results); [|reflexivity].
    now apply search_loop_floor. }
  split; [exact Heq|]. split.
  - rewrite Heq. apply filter_length_le.
  - rewrite <- (length_map relevance), transform_results_relevances.
    etransitivity; [apply filter_length_le|].
    unfold hit_distances. now rewrite !length_map, length_seq.
Qed.

Lemma transform_results_floor_monotone_witness :
  let results :=
    Demo.answer {| queryEmbeddings := [[1%Q]]; nResults := 5; where_type := None |} in
  ((1 # 4) <= (1 # 2))%Q /\
  map title (transform_results results (1 # 4)) = ["Altdorf"; "Sigmar"] /\
  transform_results results (1 # 2)
  = filter (fun r => Qle_bool (1 # 2) (relevance r))
      (transform_results results (1 # 4)).
Proof.
  intros results.
  assert (Hle : ((1 # 4) <= (1 # 2))%Q) by (unfold Qle; cbn; lia).
  split; [exact Hle|]. split; [reflexivity|].
  exact (proj1 (transform_results_floor_monotone results (1 # 4) (1 # 2) Hle)).
Defined.

(** ** The types given at ingestion *)

Lemma lower_idempotent c : lower (lower c) = lower c.
Proof.
  destruct c as [[] [] [] [] [] [] [] []]; reflexivity.
Qed.

Lemma toLowerCase_idempotent s : toLowerCase (toLowerCase s) = toLowerCase s.
Proof.
  induction s as [|c s IH]; cbn; [reflexivity|].
  now rewrite lower_idempotent, IH.
Qed.

Lemma toLowerCase_truthy s : truthy (toLowerCase s) = truthy s.
Proof. destruct s; reflexivity. Qed.

(** The cascade of tests, each reading the value the tests before it left,
    gives the type of the first rule that applies to [t]: the eight types
    the rules give contain no fragment of another rule than their own. *)
Lemma type_cascade_first_rule (t : string) :
  (let any_of (t : string) (subs : list string) : bool :=
     existsb (includes t) subs in
   let step (t : string) (subs : list string) (to : string) : string :=
     if any_of t subs then to else t in
   let t := step t ["person"; "character"] "character" in
   let t := step t ["place"; "city"; "region"] "location" in
   let t := step t ["creature"; "monster"; "race"] "creature" in
   let t := step t ["weapon"; "artifact"; "magic item"] "item" in
   let t := step t ["battle"; "war"; "event"] "event" in
   let t := step t ["guild"; "order"; "faction"] "organization" in
   let t := step t ["god"; "deity"] "deity" in
   let t := step t ["spell"; "magic"] "spell" in
   t)
  = default t (first_rule t).
Proof.
  cbv zeta. unfold first_rule, type_rules. cbn [find fst snd].
  destruct (existsb (includes t) ["person"; "character"]) eqn:E1;
    [vm_compute; reflexivity|].
  destruct (existsb (includes t) ["place"; "city"; "region"]) eqn:E2;
    [vm_compute; reflexivity|].
  destruct (existsb (includes t) ["creature"; "monster"; "race"]) eqn:E3;
    [vm_compute; reflexivity|].
  destruct (existsb (includes t) ["weapon"; "artifact"; "magic item"]) eqn:E4;
    [vm_compute; reflexivity|].
  destruct (existsb (includes t) ["battle"; "war"; "event"]) eqn:E5;
    [vm_compute; reflexivity|].
  destruct (existsb (includes t) ["guild"; "order"; "faction"]) eqn:E6;
    [vm_compute; reflexivity|].
  destruct (existsb (includes t) ["god"; "deity"]) eqn:E7;
    [vm_compute; reflexivity|].
  destruct (existsb (includes t) ["spell"; "magic"]) eqn:E8; reflexivity.
Qed.

Lemma normalize_type_by_rules (entry : LexicanumEntry) :
  normalize_type entry
  = default (lowered_type entry) (first_rule (lowered_type entry)).
Proof.
  unfold normalize_type. fold (lowered_type entry).
  exact (type_cascade_first_rule (lowered_type entry)).
Qed.

(** X9: the type stored for an entry is decided by the first rule, in the
    order of the source, a fragment of which occurs in the lower-cased
    type, ['general'] standing for a missing or empty type; no later test
    changes what an earlier one has set, and a type no rule applies to is
    stored lower-cased as it is. *)
Theorem normalize_type_first_rule (entry : LexicanumEntry) :
  normalize_type entry
  = default (lowered_type entry) (first_rule (lowered_type entry)).
Proof.
  unfold normalize_type. fold (lowered_type entry).
  apply type_cascade_first_rule.
Qed.

Example normalize_type_examples :
  map (fun t => normalize_type (with_type (DemoIngest.entry "") t))
    ["Person"; "City"; "War God"; "Magic Item"; "Magic"; "Vehicle"; ""]
  = ["character"; "location"; "event"; "item"; "spell"; "vehicle"; "general"].
Proof. vm_compute. reflexivity. Qed.

Lemma lowered_type_fixed entry :
  toLowerCase (lowered_type entry) = lowered_type entry /\
  truthy (lowered_type entry) = true.
Proof.
  unfold lowered_type. destruct (entry_type entry) as [s|]; cbn; [|split; reflexivity].
  destruct (truthy (toLowerCase s)) eqn:E; [|split; reflexivity].
  split; [apply toLowerCase_idempotent | exact E].
Qed.

Lemma lowered_type_with_type entry t :
  toLowerCase t = t -> truthy t = true ->
  lowered_type (with_type entry t) = t.
Proof.
  intros Hl Ht. unfold lowered_type, with_type; cbn. now rewrite Hl, Ht.
Qed.

Lemma first_rule_types t c :
  first_rule t = Some c ->
  In c ["character"; "location"; "creature"; "item"; "event"; "organization";
        "deity"; "spell"].
Proof.
  unfold first_rule, type_rules. cbn [find fst snd].
  repeat match goal with
         | |- context [existsb (includes t) ?l] =>
             destruct (existsb (includes t) l);
             [cbn; intros [= <-]; cbn; tauto|]
         end.
  discriminate.
Qed.

(** X10: the type stored for an entry is stable: an entry whose type is
    already the stored one gets that same type again, the eight types of
    the rules and ['general'] in particular are kept as they are. *)
Theorem normalize_type_idempotent (entry : LexicanumEntry) :
  normalize_type (with_type entry (normalize_type entry)) = normalize_type entry.
Proof.
  rewrite (normalize_type_by_rules entry).
  destruct (first_rule (lowered_type entry)) as [c|] eqn:E; cbn [default].
  - apply first_rule_types in E. cbn in E.
    repeat (destruct E as [<-|E]; [vm_compute; reflexivity|]). destruct E.
  - destruct (lowered_type_fixed entry) as [Hl Ht].
    rewrite normalize_type_by_rules, (lowered_type_with_type entry _ Hl Ht), E.
    reflexivity.
Qed.

(** ** From an ingested record to a result *)

Lemma or_default_truthy v dflt :
  truthy dflt = true -> truthy (or_default v dflt) = true.
Proof.
  intros H. unfold or_default. destruct v as [s|]; [|exact H].
  destruct (truthy s) eqn:E; [exact E | exact H].
Qed.

Lemma or_default_same s dflt : truthy s = true -> or_default (Some s) dflt = s.
Proof. intros H; unfold or_default; now rewrite H. Qed.

Lemma normalize_type_truthy entry : truthy (normalize_type entry) = true.
Proof.
  rewrite normalize_type_by_rules.
  destruct (first_rule (lowered_type entry)) as [c|] eqn:E; cbn [default].
  - apply first_rule_types in E. cbn in E.
    repeat (destruct E as [<-|E]; [reflexivity|]). destruct E.
  - apply lowered_type_fixed.
Qed.

Lemma truthy_of_len s : 0 < len s -> truthy s = true.
Proof. destruct s; [cbn; lia | reflexivity]. Qed.

Lemma or_undefined_stored u : or_undefined (Some (default "" u)) = or_undefined u.
Proof. destruct u as [s|]; reflexivity. Qed.

Section RoundTrip.

Variable JSON_parse : string -> option LexicanumEntry.
Variable Math_random : nat -> string.

(** A document made by [parseEntry] has a text, a title and a type that are
    not empty. *)
Lemma parseEntry_fields i line doc :
  parseEntry JSON_parse Math_random i line = Some doc ->
  truthy (doc_text doc) = true /\
  truthy (md_title (doc_metadata doc)) = true /\
  truthy (md_type (doc_metadata doc)) = true.
Proof.
  intros H. pose proof (parseEntry_ingestible _ _ _ _ _ H) as [Hlo _].
  split; [apply truthy_of_len; lia|].
  unfold parseEntry in H.
  destruct (JSON_parse line) as [entry|]; [|discriminate].
  destruct (len (extract_text entry) <? 50); [discriminate|].
  injection H as <-. cbn.
  split; [now apply or_default_truthy | apply normalize_type_truthy].
Qed.

(** X11: a document made by [parseEntry] and stored by [addDocuments] comes
    back unchanged: when the index returns its text with the metadata
    stored for it, [search] (if the relevance passes the floor) and
    [getByTitle] give a result with exactly the text, the title and the type
    of the document, no default taking their place, and its URL unless that
    was empty. *)
Theorem ingested_document_round_trip (i : nat) (line : string) (doc : LoreDocument)
    (results : QueryResponse) (minRelevance : Q) (j : nat) (asked : string) :
  parseEntry JSON_parse Math_random i line = Some doc ->
  at_index (qr_metadatas results) j = Some (stored_metadata doc) ->
  Qle_bool minRelevance (1 - distance_at results j) = true ->
  search_entry results minRelevance j (Some (doc_text doc))
  = Some {| text := doc_text doc;
            title := md_title (doc_metadata doc);
            type_ := md_type (doc_metadata doc);
            relevance := (1 - distance_at results j)%Q;
            url := or_undefined (md_url (doc_metadata doc)) |}
  /\ getByTitle_result
       {| gr_documents := Some [Some (doc_text doc)];
          gr_metadatas := Some [Some (stored_metadata doc)] |} asked
     = Some {| text := doc_text doc;
               title := md_title (doc_metadata doc);
               type_ := md_type (doc_metadata doc);
               relevance := 1%Q;
               url := or_undefined (md_url (doc_metadata doc)) |}.
Proof.
  intros Hparse Hmeta Hrel.
  destruct (parseEntry_fields i line doc Hparse) as (Htext & Htitle & Htype).
  split.
  - unfold search_entry. rewrite Hrel, Hmeta. cbn [meta_field stored_metadata
      meta_title meta_type meta_url].
    now rewrite !or_default_same, or_undefined_stored by assumption.
  - unfold getByTitle_result. cbn [at_index gr_documents gr_metadatas nth].
    rewrite Htext. cbn [meta_field stored_metadata meta_title meta_type meta_url].
    now rewrite !or_default_same, or_undefined_stored by assumption.
Qed.

End RoundTrip.

Lemma ingested_document_round_trip_witness :
  exists doc,
    parseEntry DemoIngest.parse DemoIngest.random 0 "long" = Some doc /\
    md_title (doc_metadata doc) = "Altdorf" /\
    md_type (doc_metadata doc) = "location" /\
    getByTitle_result
      {| gr_documents := Some [Some (doc_text doc)];
         gr_metadatas := Some [Some (stored_metadata doc)] |} "Altdorf"
    = Some {| text := doc_text doc; title := "Altdorf"; type_ := "location";
              relevance := 1%Q; url := None |}.
Proof.
  destruct (parseEntry DemoIngest.parse DemoIngest.random 0 "long") as [doc|] eqn:E;
    [|vm_compute in E; discriminate].
  exists doc.
  assert (Ht : md_title (doc_metadata doc) = "Altdorf"
               /\ md_type (doc_metadata doc) = "location"
               /\ md_url (doc_metadata doc) = None).
  { vm_compute in E. injection E as <-. repeat split. }
  destruct Ht as (Ht & Hty & Hu).
  split; [reflexivity|]. split; [exact Ht|]. split; [exact Hty|].
  pose proof (proj2 (ingested_document_round_trip DemoIngest.parse DemoIngest.random
                       0%nat "long" doc
                       {| qr_documents := Some [Some (doc_text doc)];
                          qr_metadatas := Some [Some (stored_metadata doc)];
                          qr_distances := Some [Some (1 # 5)%Q] |}
                       (3 # 10)%Q 0%nat "Altdorf" E eq_refl eq_refl)) as H.
  rewrite Ht, Hty, Hu in H. exact H.
Defined.

(** ** Batches and counters of an ingestion run *)

Lemma add_requests_app l1 l2 :
  add_requests (l1 ++ l2) = (add_requests l1 ++ add_requests l2)%list.
Proof. unfold add_requests; apply flat_map_app. Qed.

Section IngestionBatches.

Variable JSON_parse : string -> option LexicanumEntry.
Variable Math_random : nat -> string.
Variable embedder : string -> outcome embedding.

Lemma embed_all_no_requests documents : forall acc (d : LoreDatabase),
  state_of (embed_all embedder documents acc d) = d /\
  add_requests (calls_of (embed_all embedder documents acc d)) = [].
Proof.
  induction documents as [|doc rest IH]; intros acc d; cbn; [split; reflexivity|].
  unfold bind, embed, call.
  destruct (embedder (doc_text doc)) as [e|err]; [|split; reflexivity].
  destruct (IH (acc ++ [e])%list d) as [Hs Hl].
  destruct (embed_all embedder rest (acc ++ [e])%list d) as [[o s1] l1].
  unfold state_of, calls_of in *; cbn in *. split; assumption.
Qed.

(** [addDocuments] makes at most one request, for the whole batch. *)
Lemma addDocuments_requests pending d :
  exists o calls,
    addDocuments embedder pending d = (o, d, calls) /\
    (add_requests calls = [] \/
     exists embs, add_requests calls = [add_request_for pending embs]).
Proof.
  unfold addDocuments, bind, this.
  destruct (collection d) as [c|]; [|do 2 eexists; split; [reflexivity | now left]].
  destruct pending as [|doc rest]; [do 2 eexists; split; [reflexivity | now left]|].
  destruct (embed_all_no_requests (doc :: rest) [] d) as [Hs Hl].
  destruct (embed_all embedder (doc :: rest) [] d) as [[[embs|err] s1] l1];
    unfold state_of, calls_of in *; cbn [fst snd] in *; subst s1.
  - unfold call. cbv beta iota zeta.
    do 2 eexists; split; [reflexivity|]. right. exists embs.
    rewrite !add_requests_app, Hl. reflexivity.
  - do 2 eexists; split; [reflexivity | now left].
Qed.

(** A batch is either indexed whole or counted as one error. *)
Lemma index_batch_cases v pending d :
  exists indexed errs calls,
    index_batch embedder v pending d = (Ok (indexed, errs), d, calls) /\
    ((indexed = totalIndexed v + Z.of_nat (List.length pending) /\ errs = errors v)
     \/ (indexed = totalIndexed v /\ errs = errors v + 1)) /\
    (add_requests calls = [] \/
     exists embs, add_requests calls = [add_request_for pending embs]).
Proof.
  unfold index_batch, try_catch, bind.
  destruct (addDocuments_requests pending d) as (o & l & Hrun & Hreq).
  rewrite Hrun. destruct o as [[]|err]; cbn.
  - do 3 eexists; split; [reflexivity|]. rewrite app_nil_r.
    split; [left; split; reflexivity | exact Hreq].
  - do 3 eexists; split; [reflexivity|]. rewrite app_nil_r.
    split; [right; split; reflexivity | exact Hreq].
Qed.

(** The loop starts each batch empty and writes it as soon as it holds 50
    documents; a document that is not indexed is pending or belongs to a
    batch counted as an error. *)
Lemma ingest_loop_batches entries : forall i v d,
  Z.of_nat (List.length (batch v)) < BATCH_SIZE ->
  exists v' calls,
    ingest_loop JSON_parse Math_random embedder entries i v d = (Ok v', d, calls) /\
    Z.of_nat (List.length (batch v')) < BATCH_SIZE /\
    Forall full_batch (add_requests calls) /\
    errors v <= errors v' /\
    totalIndexed v <= totalIndexed v' /\
    totalIndexed v' + Z.of_nat (List.length (batch v'))
    <= totalIndexed v + Z.of_nat (List.length (batch v)) + yielded JSON_parse (map trim entries)
    <= totalIndexed v' + Z.of_nat (List.length (batch v'))
       + BATCH_SIZE * (errors v' - errors v).
Proof.
  unfold yielded, BATCH_SIZE.
  induction entries as [|entry rest IH]; intros i v d Hb.
  - exists v, []. cbn [ingest_loop map filter List.length Z.of_nat add_requests flat_map].
    split; [reflexivity|]. split; [exact Hb|]. split; [constructor|]. lia.
  - cbn [ingest_loop map filter].
    rewrite (parseEntry_yields JSON_parse Math_random i (trim entry)).
    set (pending := match parseEntry JSON_parse Math_random i (trim entry) with
                    | Some doc => (batch v ++ [doc])%list
                    | None => batch v
                    end).
    set (one := if match parseEntry JSON_parse Math_random i (trim entry) with
                   | Some _ => true | None => false end then 1 else 0).
    assert (Hp : Z.of_nat (List.length pending)
                 = Z.of_nat (List.length (batch v)) + one).
    { subst pending one.
      destruct (parseEntry JSON_parse Math_random i (trim entry));
        [rewrite List.length_app; cbn; lia | lia]. }
    assert (Hone : 0 <= one <= 1)
      by (subst one; destruct (parseEntry JSON_parse Math_random i (trim entry)); lia).
    assert (Hy : Z.of_nat (List.length
                   (if match parseEntry JSON_parse Math_random i (trim entry) with
                       | Some _ => true | None => false end
                    then trim entry :: filter (yields_document JSON_parse) (map trim rest)
                    else filter (yields_document JSON_parse) (map trim rest)))
                 = one + Z.of_nat (List.length
                           (filter (yields_document JSON_parse) (map trim rest)))).
    { subst one.
      destruct (parseEntry JSON_parse Math_random i (trim entry)); cbn [List.length]; lia. }
    rewrite Hy. unfold BATCH_SIZE.
    destruct (Z.geb_spec (Z.of_nat (List.length pending)) 50) as [Hfull|Hnot].
    + destruct (index_batch_cases v pending d)
        as (indexed & errs & l1 & Hrun & Hcount & Hreq).
      unfold bind. rewrite Hrun.
      destruct (IH (S i) {| batch := []; totalProcessed := totalProcessed v + 1;
                            totalIndexed := indexed; errors := errs |} d)
        as (v' & l2 & Hrest & Hb' & Hfb & Herr & Hmono & Hacc); [cbn; lia|].
      rewrite Hrest. exists v', (l1 ++ l2)%list. cbn [batch totalIndexed errors List.length Z.of_nat] in Herr, Hmono, Hacc.
      split; [reflexivity|]. split; [exact Hb'|].
      split.
      { rewrite add_requests_app. apply Forall_app; split; [|exact Hfb].
        destruct Hreq as [-> | [embs ->]]; [constructor|].
        constructor; [|constructor].
        unfold full_batch, BATCH_SIZE; cbn. rewrite length_map. lia. }
      destruct Hcount as [[-> ->] | [-> ->]]; repeat split; lia.
    + destruct (IH (S i) {| batch := pending; totalProcessed := totalProcessed v + 1;
                            totalIndexed := totalIndexed v; errors := errors v |} d)
        as (v' & l2 & Hrest & Hb' & Hfb & Herr & Hmono & Hacc); [cbn; lia|].
      rewrite Hrest. exists v', l2. cbn [batch totalIndexed errors List.length Z.of_nat] in Herr, Hmono, Hacc.
      split; [reflexivity|]. split; [exact Hb'|]. split; [exact Hfb|].
      repeat split; lia.
Qed.

(** X12: whatever the model and the collection do, an ingestion run hands
    documents to the collection in batches of exactly 50, followed at most
    by one last batch of 1 to 49 documents; no request is empty or larger. *)
Theorem ingest_entries_batches (fileParts : list string) (d : LoreDatabase) :
  exists v calls full last,
    ingest_entries JSON_parse Math_random embedder fileParts d = (Ok v, d, calls) /\
    add_requests calls = (full ++ last)%list /\
    Forall full_batch full /\
    (last = [] \/
     exists r, last = [r] /\
               0 < Z.of_nat (List.length (add_documents r)) < BATCH_SIZE).
Proof.
  unfold ingest_entries, bind. fold (entries_of fileParts).
  destruct (ingest_loop_batches (entries_of fileParts) 0%nat
              {| batch := []; totalProcessed := 0; totalIndexed := 0; errors := 0 |} d)
    as (v & l & -> & Hb & Hfb & _ & _ & _); [cbn; unfold BATCH_SIZE; lia|].
  destruct (Z.gtb_spec (Z.of_nat (List.length (batch v))) 0) as [Hpos|Hzero].
  - destruct (index_batch_cases v (batch v) d) as (indexed & errs & l1 & -> & _ & Hreq).
    do 2 eexists. exists (add_requests l), (add_requests l1).
    split; [reflexivity|]. rewrite app_nil_r, add_requests_app.
    split; [reflexivity|]. split; [exact Hfb|].
    destruct Hreq as [-> | [embs ->]]; [now left|].
    right. eexists; split; [reflexivity|]. cbn. rewrite length_map. lia.
  - unfold ret. do 2 eexists. exists (add_requests l), [].
    split; [reflexivity|]. rewrite !app_nil_r.
    split; [reflexivity|]. split; [exact Hfb | now left].
Qed.

(** X13: whatever the model and the collection do, the counters of a run
    account for every document: the number indexed is at most the number
    of records that gave a document, and each counted error stands for at
    most 50 documents that were not indexed. *)
Theorem ingest_entries_accounting (fileParts : list string) (d : LoreDatabase) :
  exists v calls,
    ingest_entries JSON_parse Math_random embedder fileParts d = (Ok v, d, calls) /\
    0 <= errors v /\
    0 <= totalIndexed v <= yielded JSON_parse (map trim (entries_of fileParts)) /\
    yielded JSON_parse (map trim (entries_of fileParts)) - totalIndexed v
    <= BATCH_SIZE * errors v.
Proof.
  unfold ingest_entries, bind. fold (entries_of fileParts).
  destruct (ingest_loop_batches (entries_of fileParts) 0%nat
              {| batch := []; totalProcessed := 0; totalIndexed := 0; errors := 0 |} d)
    as (v & l & -> & Hb & _ & Herr & Hidx & Hacc); [cbn; unfold BATCH_SIZE; lia|].
  cbn [batch totalIndexed errors List.length Z.of_nat] in Herr, Hidx, Hacc.
  unfold yielded, BATCH_SIZE in *.
  destruct (Z.gtb_spec (Z.of_nat (List.length (batch v))) 0) as [Hpos|Hzero].
  - destruct (index_batch_cases v (batch v) d)
      as (indexed & errs & l1 & -> & Hcount & _).
    do 2 eexists. split; [reflexivity|]. cbn [errors totalIndexed].
    destruct Hcount as [[-> ->] | [-> ->]]; lia.
  - unfold ret. do 2 eexists. split; [reflexivity|]. lia.
Qed.

End IngestionBatches.

Section IngestionOrder.

Variable JSON_parse : string -> option LexicanumEntry.
Variable Math_random : nat -> string.
Variable embedder : string -> outcome embedding.
Variable d : LoreDatabase.
Variable c : Collection.

Hypothesis connected : collection d = Some c.
Hypothesis model_answers : forall t, exists e, embedder t = Ok e.
Hypothesis add_succeeds : forall r, coll_add c r = Ok tt.

Lemma parseEntry_line_texts i line :
  match parseEntry JSON_parse Math_random i line with
  | Some doc => [doc_text doc]
  | None => []
  end = line_texts JSON_parse line.
Proof.
  unfold parseEntry, line_texts.
  destruct (JSON_parse line) as [entry|]; [|reflexivity].
  destruct (len (extract_text entry) <? 50); reflexivity.
Qed.

Lemma line_texts_count lines :
  List.length (filter (yields_document JSON_parse) lines)
  = List.length (flat_map (line_texts JSON_parse) lines).
Proof.
  induction lines as [|line rest IH]; [reflexivity|].
  cbn [filter flat_map]. rewrite List.length_app, <- IH.
  unfold yields_document, line_texts.
  destruct (JSON_parse line) as [entry|]; [|reflexivity].
  destruct (Z.ltb_spec (len (extract_text entry)) 50);
    destruct (Z.leb_spec 50 (len (extract_text entry))); try lia; reflexivity.
Qed.

Lemma index_batch_texts v pending :
  exists calls,
    index_batch embedder v pending d
    = (Ok (totalIndexed v + Z.of_nat (List.length pending), errors v), d, calls) /\
    stored_texts calls = map doc_text pending.
Proof.
  destruct pending as [|doc rest].
  - exists []. split; [|reflexivity].
    unfold index_batch, try_catch, addDocuments. unfold bind, this.
    rewrite connected. reflexivity.
  - destruct (embed_all_ok embedder d model_answers (doc :: rest) [])
      as (embs & l & Hemb).
    pose proof (embed_all_spec embedder (doc :: rest) [] d) as [_ Hl].
    rewrite Hemb in Hl. unfold calls_of in Hl; cbn [snd] in Hl.
    eexists. split.
    + unfold index_batch, try_catch, addDocuments. unfold bind, this.
      rewrite connected, Hemb. unfold call. rewrite add_succeeds. reflexivity.
    + rewrite app_nil_r, !stored_texts_app, Hl. cbn. now rewrite app_nil_r.
Qed.

Lemma ingest_loop_order entries : forall i v,
  exists v' calls,
    ingest_loop JSON_parse Math_random embedder entries i v d = (Ok v', d, calls) /\
    (stored_texts calls ++ map doc_text (batch v'))%list
    = (map doc_text (batch v)
       ++ flat_map (line_texts JSON_parse) (map trim entries))%list.
Proof.
  induction entries as [|entry rest IH]; intros i v.
  - exists v, []; cbn. split; [reflexivity | now rewrite app_nil_r].
  - cbn [ingest_loop map flat_map].
    rewrite <- (parseEntry_line_texts i (trim entry)).
    set (pending := match parseEntry JSON_parse Math_random i (trim entry) with
                    | Some doc => (batch v ++ [doc])%list
                    | None => batch v
                    end).
    assert (Hp : map doc_text pending
                 = (map doc_text (batch v)
                    ++ match parseEntry JSON_parse Math_random i (trim entry) with
                       | Some doc => [doc_text doc]
                       | None => []
                       end)%list).
    { subst pending.
      destruct (parseEntry JSON_parse Math_random i (trim entry));
        [now rewrite map_app | now rewrite app_nil_r]. }
    destruct (Z.of_nat (List.length pending) >=? BATCH_SIZE).
    + destruct (index_batch_texts v pending) as (l1 & Hrun & Htexts).
      unfold bind. rewrite Hrun.
      destruct (IH (S i) {| batch := []; totalProcessed := totalProcessed v + 1;
                            totalIndexed := totalIndexed v + Z.of_nat (List.length pending);
                            errors := errors v |})
        as (v' & l2 & -> & Hord).
      exists v', (l1 ++ l2)%list. split; [reflexivity|].
      cbn [batch map app] in Hord.
      rewrite stored_texts_app, <- List.app_assoc, Hord, Htexts, Hp.
      now rewrite <- List.app_assoc.
    + destruct (IH (S i) {| batch := pending; totalProcessed := totalProcessed v + 1;
                            totalIndexed := totalIndexed v; errors := errors v |})
        as (v' & l2 & -> & Hord).
      exists v', l2. split; [reflexivity|].
      cbn [batch] in Hord. rewrite Hord, Hp. now rewrite <- List.app_assoc.
Qed.

(** X14: when the model answers and every write succeeds, the texts handed
    to the collection over a run are exactly the texts of the records that
    give a document, each once and in the order of the file: nothing is
    lost or repeated at the boundary of two batches, and the number indexed
    is their number. *)
Theorem ingest_entries_order (fileParts : list string) :
  exists v calls,
    ingest_entries JSON_parse Math_random embedder fileParts d = (Ok v, d, calls) /\
    stored_texts calls
    = flat_map (line_texts JSON_parse) (map trim (entries_of fileParts)) /\
    totalIndexed v = Z.of_nat (List.length (stored_texts calls)).
Proof.
  unfold ingest_entries, bind. fold (entries_of fileParts).
  destruct (ingest_loop_order (entries_of fileParts) 0%nat
              {| batch := []; totalProcessed := 0; totalIndexed := 0; errors := 0 |})
    as (v & l & Hrun & Hord).
  rewrite Hrun. cbn [batch map app] in Hord.
  assert (Hcount : totalIndexed v + Z.of_nat (List.length (batch v))
                   = Z.of_nat (List.length
                       (flat_map (line_texts JSON_parse)
                          (map trim (entries_of fileParts))))).
  { destruct (ingest_loop_ok JSON_parse Math_random embedder d c connected
                model_answers add_succeeds (entries_of fileParts) 0%nat
                {| batch := []; totalProcessed := 0; totalIndexed := 0; errors := 0 |})
      as (v1 & l1 & Hrun1 & _ & Hidx).
    rewrite Hrun in Hrun1. injection Hrun1 as <- <-.
    cbn [batch totalIndexed List.length Z.of_nat] in Hidx. rewrite Hidx.
    now rewrite line_texts_count. }
  destruct (Z.gtb_spec (Z.of_nat (List.length (batch v))) 0) as [Hpos|Hzero].
  - destruct (index_batch_texts v (batch v)) as (l1 & -> & Htexts).
    do 2 eexists. split; [reflexivity|].
    rewrite app_nil_r, stored_texts_app, Htexts, Hord.
    split; [reflexivity|]. cbn [totalIndexed]. exact Hcount.
  - unfold ret. do 2 eexists. split; [reflexivity|]. rewrite app_nil_r.
    assert (Hnil : batch v = []) by (destruct (batch v); [reflexivity | cbn in Hzero; lia]).
    rewrite Hnil in Hord, Hcount. cbn [map] in Hord. rewrite app_nil_r in Hord.
    rewrite Hord. split; [reflexivity|]. cbn [List.length Z.of_nat] in Hcount. lia.
Qed.

End IngestionOrder.

Lemma ingest_entries_order_witness :
  let fileParts := ["long"; " short "; "{bad"; "  "; "long"] in
  exists v calls,
    ingest_entries DemoIngest.parse DemoIngest.random Demo.model fileParts
      (db Demo.ready)
    = (Ok v, db Demo.ready, calls) /\
    stored_texts calls
    = flat_map (line_texts DemoIngest.parse) (map trim (entries_of fileParts)) /\
    totalIndexed v = Z.of_nat (List.length (stored_texts calls)).
Proof.
  intros fileParts.
  apply (ingest_entries_order DemoIngest.parse DemoIngest.random Demo.model
           (db Demo.ready) Demo.lore eq_refl).
  - intros t; eexists; reflexivity.
  - intros r; reflexivity.
Defined.

(** ** Queries leave the service as it is *)

Section ReadOnly.

Variable embedder : string -> outcome embedding.

Lemma db_search_state query options d :
  state_of (db_search embedder query options d) = d.
Proof.
  unfold db_search, embed, state_of. unfold bind, this, call, ret, throw.
  destruct (collection d) as [c|]; [|reflexivity].
  destruct (embedder query) as [v|e]; [|reflexivity].
  match goal with |- context [coll_query c ?q] => destruct (coll_query c q) end;
    reflexivity.
Qed.

Lemma db_getByTitle_state t d : state_of (db_getByTitle t d) = d.
Proof.
  unfold db_getByTitle, state_of. unfold bind, this, call, ret, throw.
  destruct (collection d) as [c|]; [|reflexivity].
  destruct (coll_get c t); reflexivity.
Qed.

Lemma db_count_state d : state_of (db_count d) = d.
Proof.
  unfold db_count, state_of. unfold bind, this, call, ret.
  destruct (collection d) as [c|]; reflexivity.
Qed.

Lemma on_db_state {A} (m : M LoreDatabase A) s :
  state_of (m (db s)) = db s -> state_of (on_db m s) = s.
Proof.
  unfold on_db, on_field, state_of. destruct (m (db s)) as [[o d'] l]; cbn.
  intros ->. apply set_db_same.
Qed.

(** Binding a computation that leaves the state to a continuation that
    leaves it too. *)
Lemma bind_state {S A B} (m : M S A) (k : A -> M S B) s :
  state_of (m s) = s ->
  (forall a, state_of (k a s) = s) ->
  state_of (bind m k s) = s.
Proof.
  unfold bind, state_of. destruct (m s) as [[[a|e] s1] l1]; cbn; intros -> Hk;
    [|reflexivity].
  specialize (Hk a). destruct (k a s) as [[o s2] l2]; exact Hk.
Qed.

Lemma search_state query options s :
  state_of (search embedder query options s) = s.
Proof.
  unfold search. apply bind_state; [reflexivity|].
  intros a. destruct (initialized a); cbn [negb]; [|reflexivity].
  apply on_db_state, db_search_state.
Qed.

Lemma getByTitle_state t s : state_of (getByTitle t s) = s.
Proof.
  unfold getByTitle. apply bind_state; [reflexivity|].
  intros a. destruct (initialized a); cbn [negb]; [|reflexivity].
  apply on_db_state, db_getByTitle_state.
Qed.

Lemma lookupEntity_state name category s :
  state_of (lookupEntity embedder name category s) = s.
Proof.
  unfold lookupEntity. apply bind_state; [apply getByTitle_state|].
  intros [r|]; [reflexivity|].
  apply bind_state; [apply search_state | reflexivity].
Qed.

Lemma getContextForSituation_state situation entities s :
  state_of (getContextForSituation embedder situation entities s) = s.
Proof.
  unfold getContextForSituation. apply bind_state; [apply search_state | reflexivity].
Qed.

Lemma getDocumentCount_state s : state_of (getDocumentCount s) = s.
Proof. apply on_db_state, db_count_state. Qed.

Lemma try_catch_state {A} (m : M RAGService A) (h : error -> M RAGService A) s :
  state_of (m s) = s ->
  (forall e, state_of (h e s) = s) ->
  state_of (try_catch m h s) = s.
Proof.
  unfold try_catch, state_of. destruct (m s) as [[[a|e] s1] l1]; cbn; intros -> Hh;
    [reflexivity|].
  specialize (Hh e). destruct (h e s) as [[o s2] l2]; exact Hh.
Qed.

(** The [catch] of the handler turns every error into a response. *)
Lemma try_catch_error_response (m : M RAGService ToolResponse) s :
  exists response,
    result_of (try_catch m error_response s) = Ok response.
Proof.
  unfold try_catch, result_of, error_response.
  destruct (m s) as [[[a|[msg]] s1] l1]; cbn; eexists; reflexivity.
Qed.

End ReadOnly.

(** ** Random lore *)

Lemma js_nth_In {A} (a : list A) i x : js_nth a i = Some x -> In x a.
Proof.
  unfold js_nth. destruct (i <? 0); [discriminate|]. apply nth_error_In.
Qed.

Lemma random_index_range u n :
  (0 <= u)%Q -> (u < 1)%Q -> (0 < n)%nat ->
  0 <= random_index u n < Z.of_nat n.
Proof.
  intros H0 H1 Hn. unfold random_index.
  assert (Hpos : (0 < inject_Z (Z.of_nat n))%Q).
  { change 0%Q with (inject_Z 0). rewrite <- Zlt_Qlt. lia. }
  split.
  - change 0 with (Qfloor (inject_Z 0)) at 1. apply Qfloor_resp_le.
    change (inject_Z 0) with 0%Q. apply Qmult_le_0_compat; [exact H0|].
    now apply Qlt_le_weak.
  - assert (Hlt : (u * inject_Z (Z.of_nat n) < inject_Z (Z.of_nat n))%Q).
    { rewrite <- (Qmult_1_l (inject_Z (Z.of_nat n))) at 2.
      now apply Qmult_lt_r. }
    pose proof (Qfloor_le (u * inject_Z (Z.of_nat n))) as Hfl.
    rewrite Zlt_Qlt. eapply Qle_lt_trans; eassumption.
Qed.

Lemma js_nth_in_range {A} (a : list A) i :
  0 <= i < Z.of_nat (List.length a) -> exists x, js_nth a i = Some x.
Proof.
  intros Hi. unfold js_nth.
  destruct (Z.ltb_spec i 0); [lia|].
  destruct (nth_error a (Z.to_nat i)) as [x|] eqn:E; [now exists x|].
  apply nth_error_None in E. lia.
Qed.

(** X15: on a ready service [getRandomLore] searches for one of the five
    seed queries, whatever is drawn, asking for 10 results under the given
    category; it returns nothing when that search finds nothing, and
    otherwise one of the results found, which exists for any draw in
    [0, 1). *)
Theorem getRandomLore_seeded
    (embedder : string -> outcome embedding) (s : RAGService) (c : Collection)
    (u1 u2 : Q) (category : option LoreCategory) :
  initialized s = true ->
  collection (db s) = Some c ->
  exists seed,
    In seed seed_queries /\
    forall v results,
      embedder seed = Ok v ->
      coll_query c (query_for v (random_options category)) = Ok results ->
      let found := transform_results results (3 # 10)%Q in
      nResults (query_for v (random_options category)) = 10 /\
      exists picked,
        getRandomLore embedder u1 u2 category s
        = (Ok picked, s,
           [EvEmbed seed; EvQuery (query_for v (random_options category))]) /\
        (found = [] -> picked = None) /\
        (forall r, picked = Some r -> In r found) /\
        (found <> [] -> (0 <= u2)%Q -> (u2 < 1)%Q -> exists r, picked = Some r).
Proof.
  intros Hi Hc.
  set (seed := default "Empire provinces cities"
                 (js_nth seed_queries (random_index u1 (List.length seed_queries)))).
  exists seed. split.
  { subst seed.
    destruct (js_nth seed_queries (random_index u1 (List.length seed_queries)))
      as [q|] eqn:E; cbn [default]; [exact (js_nth_In _ _ _ E) | now left]. }
  intros v results Hv Hq found. split; [reflexivity|].
  unfold getRandomLore. fold seed. fold (random_options category). unfold bind.
  rewrite (search_run embedder s c seed (random_options category) v results Hi Hc Hv Hq).
  cbn [default opt_minRelevance random_options]. fold found.
  destruct found as [|r0 rest] eqn:Ef.
  - exists None. split; [reflexivity|]. split; [reflexivity|].
    split; [discriminate | congruence].
  - exists (js_nth (r0 :: rest) (random_index u2 (List.length (r0 :: rest)))).
    split; [reflexivity|]. split; [discriminate|].
    split; [intros r; apply js_nth_In|].
    intros _ H0 H1. apply js_nth_in_range, random_index_range; cbn; try assumption; lia.
Qed.

Lemma getRandomLore_seeded_witness :
  initialized Demo.ready = true /\
  collection (db Demo.ready) = Some Demo.lore /\
  exists seed,
    In seed seed_queries /\
    forall v results,
      Demo.model seed = Ok v ->
      coll_query Demo.lore (query_for v (random_options None)) = Ok results ->
      let found := transform_results results (3 # 10)%Q in
      nResults (query_for v (random_options None)) = 10 /\
      exists picked,
        getRandomLore Demo.model (7 # 10) (6 # 10) None Demo.ready
        = (Ok picked, Demo.ready,
           [EvEmbed seed; EvQuery (query_for v (random_options None))]) /\
        (found = [] -> picked = None) /\
        (forall r, picked = Some r -> In r found) /\
        (found <> [] -> (0 <= 6 # 10)%Q -> (6 # 10 < 1)%Q ->
         exists r, picked = Some r).
Proof.
  split; [reflexivity|]. split; [reflexivity|].
  exact (getRandomLore_seeded Demo.model Demo.ready Demo.lore (7 # 10) (6 # 10) None
           eq_refl eq_refl).
Defined.

Example getRandomLore_demo :
  getRandomLore Demo.model (7 # 10) (6 # 10) None Demo.ready
  = (Ok (hd_error (tl (transform_results
                         (Demo.answer (query_for [18%Q] (random_options None)))
                         (3 # 10)%Q))),
     Demo.ready,
     [EvEmbed "Beastmen creatures";
      EvQuery (query_for [18%Q] (random_options None))]).
Proof. reflexivity. Qed.

(** ** The lore tools *)

Lemma clamp_limit_range n : 1 <= clamp_limit n <= 10.
Proof. unfold clamp_limit; lia. Qed.

(** X16: whatever [limit] the caller of the search tool gives, the index is
    asked for between 1 and 10 results: for 5 when the argument is missing
    or 0, for the argument itself when it lies between 1 and 10; the floor
    is the default 3/10 and the response is the no-lore text exactly when
    nothing passes it. *)
Theorem warhammer_lore_search_limit
    (embedder : string -> outcome embedding) (toLocaleString : Z -> string)
    (s : RAGService) (c : Collection) (args : ToolArgs)
    (v : embedding) (results : QueryResponse) :
  initialized s = true ->
  collection (db s) = Some c ->
  embedder (a_query args) = Ok v ->
  coll_query c (query_for v (tool_search_options args)) = Ok results ->
  let q := query_for v (tool_search_options args) in
  1 <= nResults q <= 10 /\
  (a_limit args = None \/ a_limit args = Some 0 -> nResults q = 5) /\
  (forall n, a_limit args = Some n -> 1 <= n <= 10 -> nResults q = n) /\
  handleRAGTool embedder toLocaleString "warhammer_lore_search" args s
  = (Ok (formatResponse
           match transform_results results (3 # 10)%Q with
           | [] => NO_LORE_FOUND (a_query args)
           | found => render_search (a_query args) (default any (a_category args)) found
           end),
     s, [EvEmbed (a_query args); EvQuery q]).
Proof.
  intros Hi Hc Hv Hq q.
  split; [apply clamp_limit_range|].
  split.
  { intros [H|H]; subst q; cbn; rewrite H; reflexivity. }
  split.
  { intros n H Hn. subst q; cbn. rewrite H. unfold clamp_limit, or_5.
    destruct n; lia. }
  unfold handleRAGTool. cbn [String.eqb Ascii.eqb Bool.eqb].
  unfold try_catch, warhammer_lore_search_case, bind.
  fold (tool_search_options args).
  rewrite (search_run embedder s c (a_query args) (tool_search_options args) v results
             Hi Hc Hv Hq).
  cbn [default opt_minRelevance tool_search_options].
  destruct (transform_results results (3 # 10)); reflexivity.
Qed.

Lemma warhammer_lore_search_limit_witness :
  let args := {| a_query := "capital city"; a_name := ""; a_situation := "";
                 a_category := Some location; a_limit := Some 50;
                 a_entities := None; a_maxLength := None |} in
  let q := query_for [12%Q] (tool_search_options args) in
  nResults q = 10 /\
  where_type q = Some "location" /\
  exists response,
    handleRAGTool Demo.model Z_to_string "warhammer_lore_search" args Demo.ready
    = (Ok response, Demo.ready, [EvEmbed "capital city"; EvQuery q]).
Proof.
  intros args q.
  split; [reflexivity|]. split; [reflexivity|].
  eexists.
  exact (proj2 (proj2 (proj2
           (warhammer_lore_search_limit Demo.model Z_to_string Demo.ready Demo.lore
              args [12%Q] (Demo.answer q) eq_refl eq_refl eq_refl eq_refl)))).
Defined.

Section ToolsNeverThrow.

Variable embedder : string -> outcome embedding.
Variable toLocaleString : Z -> string.

Lemma error_response_state e s : state_of (error_response e s) = s.
Proof. destruct e; reflexivity. Qed.

Lemma handle_warhammer_context_result args s :
  exists response,
    result_of (handle_warhammer_context embedder args s) = Ok response.
Proof.
  unfold handle_warhammer_context, try_catch, result_of.
  match goal with
  | |- context [bind ?m ?k s] => destruct (bind m k s) as [[[a|[msg]] s1] l1]
  end; cbn; eexists; reflexivity.
Qed.

Lemma handle_warhammer_context_state args s :
  state_of (handle_warhammer_context embedder args s) = s.
Proof.
  unfold handle_warhammer_context. apply try_catch_state.
  - apply bind_state; [apply getContextForSituation_state|].
    intros context. destruct (sourceCount context =? 0); reflexivity.
  - intros [msg]; reflexivity.
Qed.

(** X17: [handleRAGTool] never throws and never changes the service: for
    every tool name and arguments, whatever the collaborators do, it returns
    a response. On a service that is not initialised the search, lookup and
    context tools answer with the text of the not-initialised error, calling
    no collaborator, and a name that is none of the four tools is answered
    with the unknown-tool error. *)
Theorem handleRAGTool_never_throws (toolName : string) (args : ToolArgs)
    (s : RAGService) :
  (exists response,
      result_of (handleRAGTool embedder toLocaleString toolName args s)
      = Ok response) /\
  state_of (handleRAGTool embedder toLocaleString toolName args s) = s /\
  (initialized s = false ->
   In toolName ["warhammer_lore_search"; "warhammer_lore_lookup";
                "warhammer_context"] ->
   handleRAGTool embedder toLocaleString toolName args s
   = (Ok (formatResponse "**Error:** RAG Service not initialized"), s, [])) /\
  (~ In toolName ["warhammer_lore_search"; "warhammer_lore_lookup";
                  "warhammer_context"; "warhammer_lore_status"] ->
   handleRAGTool embedder toLocaleString toolName args s
   = (Ok (formatResponse ("**Error:** Unknown RAG tool: " ++ toolName)), s, [])).
Proof.
  split; [|split; [|split]].
  - unfold handleRAGTool.
    repeat match goal with
           | |- context [String.eqb toolName ?n] => destruct (String.eqb toolName n)
           end;
      first [apply try_catch_error_response | apply handle_warhammer_context_result].
  - unfold handleRAGTool.
    repeat match goal with
           | |- context [String.eqb toolName ?n] => destruct (String.eqb toolName n)
           end.
    + apply try_catch_state; [|intros e; apply error_response_state].
      unfold warhammer_lore_search_case.
      apply bind_state; [apply search_state|]. intros [|r rs]; reflexivity.
    + apply try_catch_state; [|intros e; apply error_response_state].
      unfold warhammer_lore_lookup_case.
      apply bind_state; [apply lookupEntity_state|]. intros [r|]; reflexivity.
    + apply handle_warhammer_context_state.
    + apply try_catch_state; [|intros e; apply error_response_state].
      unfold warhammer_lore_status_case.
      apply bind_state; [reflexivity|]. intros a.
      destruct (isReady a); cbn [negb]; [|reflexivity].
      apply bind_state; [apply getDocumentCount_state | reflexivity].
    + apply try_catch_state; [reflexivity | intros e; apply error_response_state].
  - intros Hi [<-|[<-|[<-|[]]]]; unfold handleRAGTool; cbn [String.eqb Ascii.eqb Bool.eqb].
    + unfold try_catch, warhammer_lore_search_case, bind.
      now rewrite (search_refused embedder _ _ s Hi).
    + unfold try_catch, warhammer_lore_lookup_case, bind.
      now rewrite (lookupEntity_refused embedder _ _ s Hi).
    + unfold handle_warhammer_context, try_catch, getContextForSituation, bind.
      now rewrite (search_refused embedder _ _ s Hi).
  - intros Hnot. unfold handleRAGTool.
    repeat match goal with
           | |- context [String.eqb toolName ?n] =>
               destruct (String.eqb_spec toolName n) as [->|_];
               [exfalso; apply Hnot; cbn; tauto|]
           end.
    reflexivity.
Qed.

End ToolsNeverThrow.

Example handleRAGTool_unknown :
  handleRAGTool Demo.model Z_to_string "warhammer_lore_export"
    {| a_query := ""; a_name := ""; a_situation := ""; a_category := None;
       a_limit := None; a_entities := None; a_maxLength := None |} Demo.ready
  = (Ok (formatResponse "**Error:** Unknown RAG tool: warhammer_lore_export"),
     Demo.ready, []).
Proof. reflexivity. Qed.

(** ** The other operations before initialisation *)

(** X18: like [search], the operations built on it are refused on a service
    that is not initialised: [searchWithContext], [getContextForSituation]
    and [getRandomLore] throw the not-initialised error before any call and
    build no context; [getDocumentCount] is not guarded and answers 0,
    without a call, as long as the repository has no collection. *)
Theorem composed_queries_refused
    (embedder : string -> outcome embedding) (s : RAGService) :
  (initialized s = false ->
   forall (query situation : string) (options : LoreSearchOptions)
          (maxContextLength : option Z) (entities : list string)
          (u1 u2 : Q) (category : option LoreCategory),
     searchWithContext embedder query options maxContextLength s
     = (Throw NOT_INITIALIZED_SERVICE, s, []) /\
     getContextForSituation embedder situation entities s
     = (Throw NOT_INITIALIZED_SERVICE, s, []) /\
     getRandomLore embedder u1 u2 category s
     = (Throw NOT_INITIALIZED_SERVICE, s, [])) /\
  (collection (db s) = None -> getDocumentCount s = (Ok 0, s, [])).
Proof.
  split.
  - intros Hi query situation options maxContextLength entities u1 u2 category.
    split; [|split].
    + unfold searchWithContext, bind.
      now rewrite (search_refused embedder query options s Hi).
    + unfold getContextForSituation, bind.
      now rewrite (search_refused embedder _ _ s Hi).
    + unfold getRandomLore, bind.
      now rewrite (search_refused embedder _ _ s Hi).
  - intros Hc. unfold getDocumentCount, on_db, on_field, db_count, bind, this.
    rewrite Hc. cbn. now rewrite set_db_same.
Qed.

Lemma composed_queries_refused_witness :
  let fresh := new_RAGService Demo.chroma in
  searchWithContext Demo.model "capital city" no_options None fresh
  = (Throw NOT_INITIALIZED_SERVICE, fresh, [])
  /\ getDocumentCount fresh = (Ok 0, fresh, []).
Proof.
  intros fresh.
  destruct (composed_queries_refused Demo.model fresh) as [Hq Hcount].
  split.
  - exact (proj1 (Hq eq_refl "capital city" "" no_options None [] 0%Q 0%Q None)).
  - exact (Hcount eq_refl).
Defined.

(** ** The lookup and status tools *)

Section LookupAndStatus.

Variable embedder : string -> outcome embedding.
Variable toLocaleString : Z -> string.

(** X19: on a ready service the lookup tool, for a name that is the exact
    title of a stored document, calls nothing but the exact lookup and
    renders that document with a relevance of 100%; when neither the exact
    lookup nor the semantic search finds anything it answers with the
    not-found text, which is not an error response. *)
Theorem warhammer_lore_lookup_outcomes (s : RAGService) (c : Collection)
    (args : ToolArgs) (found : GetResponse) :
  initialized s = true ->
  collection (db s) = Some c ->
  coll_get c (a_name args) = Ok found ->
  (forall doc,
      at_index (gr_documents found) 0 = Some doc -> doc <> "" ->
      exists r,
        handleRAGTool embedder toLocaleString "warhammer_lore_lookup" args s
        = (Ok (formatResponse (render_lookup r)), s, [EvGet (a_name args)]) /\
        text r = doc /\
        Z_to_string (Math_round (relevance r * 100)) = "100")
  /\
  (getByTitle_result found (a_name args) = None ->
   forall v results,
     embedder (a_name args) = Ok v ->
     coll_query c (query_for v (fallback_options (a_category args))) = Ok results ->
     transform_results results (3 # 10)%Q = [] ->
     handleRAGTool embedder toLocaleString "warhammer_lore_lookup" args s
     = (Ok (formatResponse (ENTITY_NOT_FOUND (a_name args))), s,
        [EvGet (a_name args); EvEmbed (a_name args);
         EvQuery (query_for v (fallback_options (a_category args)))])).
Proof.
  intros Hi Hc Hget.
  pose proof (getByTitle_run s c (a_name args) Hi Hc) as Hrun. rewrite Hget in Hrun.
  split.
  - intros doc Hdoc Hne.
    destruct (getByTitle_result_found found (a_name args) doc Hdoc Hne)
      as (r & Hr & Hrel & Htxt).
    rewrite Hr in Hrun. exists r.
    split; [|split; [exact Htxt | now rewrite Hrel]].
    unfold handleRAGTool. cbn [String.eqb Ascii.eqb Bool.eqb].
    unfold try_catch, warhammer_lore_lookup_case, lookupEntity, bind.
    rewrite Hrun. reflexivity.
  - intros Hnone v results Hv Hq Hempty.
    rewrite Hnone in Hrun.
    unfold handleRAGTool. cbn [String.eqb Ascii.eqb Bool.eqb].
    unfold try_catch, warhammer_lore_lookup_case, lookupEntity, bind.
    rewrite Hrun. fold (fallback_options (a_category args)).
    rewrite (search_run embedder s c (a_name args) (fallback_options (a_category args))
               v results Hi Hc Hv Hq).
    cbn [default opt_minRelevance fallback_options]. rewrite Hempty. reflexivity.
Qed.

(** X20: the status tool asks for the document count only on a ready
    service: otherwise it answers that the database is not available,
    calling nothing; on a ready service it makes the one call, renders the
    count, and turns a failure of that call into an error response. *)
Theorem warhammer_lore_status_outcomes (s : RAGService) (args : ToolArgs) :
  (isReady s = false ->
   handleRAGTool embedder toLocaleString "warhammer_lore_status" args s
   = (Ok (formatResponse STATUS_NOT_AVAILABLE), s, [])) /\
  (forall c,
      isReady s = true ->
      collection (db s) = Some c ->
      handleRAGTool embedder toLocaleString "warhammer_lore_status" args s
      = (Ok (formatResponse
               match coll_count c with
               | Ok n => render_status (toLocaleString n)
               | Throw (Error message) => "**Error:** " ++ message
               end),
         s, [EvCount])).
Proof.
  split.
  - intros Hr. unfold handleRAGTool. cbn [String.eqb Ascii.eqb Bool.eqb].
    unfold try_catch, warhammer_lore_status_case, bind, this.
    rewrite Hr. reflexivity.
  - intros c Hr Hc. unfold handleRAGTool. cbn [String.eqb Ascii.eqb Bool.eqb].
    unfold try_catch, warhammer_lore_status_case, bind, this.
    rewrite Hr. cbn [negb].
    unfold getDocumentCount, on_db, on_field, db_count, bind, this.
    rewrite Hc. unfold call.
    destruct (coll_count c) as [n|[msg]]; cbn; rewrite set_db_same; reflexivity.
Qed.

End LookupAndStatus.

Lemma warhammer_lore_lookup_outcomes_witness :
  let args := {| a_query := ""; a_name := "Sigmar"; a_situation := "";
                 a_category := None; a_limit := None; a_entities := None;
                 a_maxLength := None |} in
  exists r,
    handleRAGTool Demo.model Z_to_string "warhammer_lore_lookup" args Demo.ready
    = (Ok (formatResponse (render_lookup r)), Demo.ready, [EvGet "Sigmar"]) /\
    text r = Demo.sigmar_text /\
    Z_to_string (Math_round (relevance r * 100)) = "100".
Proof.
  intros args.
  apply (proj1 (warhammer_lore_lookup_outcomes Demo.model Z_to_string Demo.ready
                  Demo.lore args (Demo.by_title "Sigmar") eq_refl eq_refl eq_refl));
    [reflexivity | discriminate].
Defined.

Lemma warhammer_lore_status_outcomes_witness :
  let args := {| a_query := ""; a_name := ""; a_situation := "";
                 a_category := None; a_limit := None; a_entities := None;
                 a_maxLength := None |} in
  handleRAGTool Demo.model Z_to_string "warhammer_lore_status" args
    (new_RAGService Demo.chroma)
  = (Ok (formatResponse STATUS_NOT_AVAILABLE), new_RAGService Demo.chroma, [])
  /\ handleRAGTool Demo.model Z_to_string "warhammer_lore_status" args Demo.ready
     = (Ok (formatResponse (render_status "2")), Demo.ready, [EvCount]).
Proof.
  intros args. split.
  - exact (proj1 (warhammer_lore_status_outcomes Demo.model Z_to_string
                    (new_RAGService Demo.chroma) args) eq_refl).
  - exact (proj2 (warhammer_lore_status_outcomes Demo.model Z_to_string
                    Demo.ready args) Demo.lore eq_refl eq_refl).
Defined.
